(** * MoodTunes: the mood-to-audio synthesis engine and the server's mood routes

    A shallow embedding of
    - the client's audio generator ([generateAudioFromMood] and its helpers,
      which render a thirty second stereo buffer from a [MusicParams] record),
    - the server's route registration ([analyzeMoodFromText], the
      generate-music handler and its helper tables),
    - the in-memory storage of the server, the request schemas and the two
      POST routes,
    - the mood analysis of the client and the volume keypad of its player.

    Conventions of the embedding.
    - A JavaScript [number] that the program uses as a quantity (time,
      frequency, amplitude, tempo) is a real number of [R]; the roundings of
      binary64 arithmetic and the narrowing to [Float32Array] are not
      modelled.  A [number] that the program uses as an integer (array index,
      interval, scale degree, counter, match count) is a [Z].
    - [undefined] is [None].
    - [Math.random()] reads the next draw of an oracle [nat -> R]; the number
      of draws consumed so far is threaded through the [Rand] monad.
    - A thrown exception is the [Thrown] outcome. *)

From Stdlib Require Import Reals String Ascii List ZArith Bool Lra Lia.
From Stdlib Require Import QArith Qround.
From Stdlib Require Import Permutation Sorted.

Set Warnings "-abstract-large-number".
Import ListNotations.

Local Open Scope string_scope.
Local Open Scope Z_scope.

(** ** JavaScript primitives *)

Module JS.

(** [s.charAt(0)]: the first character as a string, or the empty string. *)
Definition charAt0 (s : string) : string :=
  match s with
  | EmptyString => EmptyString
  | String c _ => String c EmptyString
  end.

(** [xs.indexOf(x)] on an array of strings; [-1] when [x] is absent, and in
    particular when [x] is [undefined]. *)
Fixpoint indexOfFrom (xs : list string) (x : string) (i : Z) : Z :=
  match xs with
  | [] => -1
  | y :: ys => if String.eqb y x then i else indexOfFrom ys x (i + 1)
  end.

Definition indexOf (xs : list string) (x : option string) : Z :=
  match x with
  | None => -1
  | Some s => indexOfFrom xs s 0
  end.

(** [xs[i]]: [undefined] outside of the array, negative indices included. *)
Definition get {A : Type} (xs : list A) (i : Z) : option A :=
  if i <? 0 then None else nth_error xs (Z.to_nat i).

(** The same on an array whose entries may themselves be [undefined]. *)
Definition getU {A : Type} (xs : list (option A)) (i : Z) : option A :=
  match get xs i with
  | Some v => v
  | None => None
  end.

(** A typed array ignores a store outside of its bounds. *)
Fixpoint set {A : Type} (xs : list A) (i : nat) (v : A) : list A :=
  match xs, i with
  | [], _ => []
  | _ :: tl, O => v :: tl
  | x :: tl, S j => x :: set tl j v
  end.

(** An object literal is the list of its own properties, in insertion
    order.  It is an ordinary object: a property that it does not own is
    looked up on [Object.prototype], whose members are all truthy
    (functions, and the prototype object itself for [__proto__]). *)
Definition objectPrototypeMembers : list string :=
  [ "constructor"; "__defineGetter__"; "__defineSetter__"; "hasOwnProperty";
    "__lookupGetter__"; "__lookupSetter__"; "isPrototypeOf";
    "propertyIsEnumerable"; "toString"; "valueOf"; "__proto__";
    "toLocaleString" ].

Inductive Member (A : Type) : Type :=
| Own (v : A)
| Inherited (name : string).
Arguments Own {A} v.
Arguments Inherited {A} name.

Fixpoint ownProperty {A : Type} (o : list (string * A)) (name : string) : option A :=
  match o with
  | [] => None
  | (k, v) :: rest => if String.eqb k name then Some v else ownProperty rest name
  end.

(** [o[name]]; [None] is [undefined]. *)
Definition property {A : Type} (o : list (string * A)) (name : string) : option (Member A) :=
  match ownProperty o name with
  | Some v => Some (Own v)
  | None =>
      if existsb (String.eqb name) objectPrototypeMembers
      then Some (Inherited name) else None
  end.

(** [o[name] || o[fallback]], for an object whose own values are truthy. *)
Definition propertyOr {A : Type} (o : list (string * A)) (name fallback : string)
  : option (Member A) :=
  match property o name with
  | Some m => Some m
  | None => property o fallback
  end.

Inductive Error : Type := TypeError | ConfigurationError.

Inductive Outcome (A : Type) : Type :=
| Returned (a : A)
| Thrown (e : Error).
Arguments Returned {A} a.
Arguments Thrown {A} e.

Section RealNumbers.
Local Open Scope R_scope.

Definition Math_floor (x : R) : Z := Int_part x.

Definition Math_trunc (x : R) : Z :=
  if Rle_dec 0 x then Int_part x else (- Int_part (- x))%Z.

(** [x % y] on numbers: the remainder has the sign of the dividend. *)
Definition fmod (x y : R) : R := x - y * IZR (Math_trunc (x / y)).

Definition Math_sign (x : R) : R :=
  if Rlt_dec 0 x then 1 else if Rlt_dec x 0 then -1 else 0.

(** [Math.pow(x, y)] for a base [x >= 0] (the only use in the program);
    [Rpower] alone would give [1] at base [0]. *)
Definition Math_pow (x y : R) : R :=
  if Req_dec_T x 0 then (if Req_dec_T y 0 then 1 else 0) else Rpower x y.

Definition gt (x y : R) : bool := if Rlt_dec y x then true else false.
Definition lt (x y : R) : bool := if Rlt_dec x y then true else false.
End RealNumbers.

(** *** [Math.random]: draws from an oracle *)

Definition oracle : Type := nat -> R.

Definition Rand (A : Type) : Type := oracle -> nat -> A * nat.

Definition ret {A : Type} (a : A) : Rand A := fun _ n => (a, n).

Definition bind {A B : Type} (m : Rand A) (k : A -> Rand B) : Rand B :=
  fun o n => let (a, n') := m o n in k a o n'.

Definition Math_random : Rand R := fun o n => (o n, S n).

End JS.

Import JS.

Declare Scope rand_scope.
Delimit Scope rand_scope with rand.
Notation "x <- m ;; k" := (bind m (fun x => k))
  (at level 61, m at next level, right associativity) : rand_scope.

(** ** The audio generator *)

Module Audio.

Record MusicParams : Type := {
  tempo : R;
  key : string;
  scale : string;       (* 'major' | 'minor' *)
  rhythm : string
}.

(** Scale definitions.  [scales mode] is [scales[mode]] where it is an array
    of intervals; for any other name the program reads [undefined] or a
    member inherited from [Object.prototype], neither of which has a [map]
    method. *)
Definition scales (mode : string) : option (list Z) :=
  if String.eqb mode "major" then Some [0; 2; 4; 5; 7; 9; 11]
  else if String.eqb mode "minor" then Some [0; 2; 3; 5; 7; 8; 10]
  else None.

(** Note mapping *)
Definition noteMap : list string :=
  ["C"; "C#"; "D"; "D#"; "E"; "F"; "F#"; "G"; "G#"; "A"; "A#"; "B"].

Definition duration : Z := 30.

(** [keyIndex] and [scaleNotes] of [generateAudioFromMood]; [scaleFrom] is
    the [map] over the interval array. *)
Definition keyIndex (key : string) : Z := indexOf noteMap (Some (charAt0 key)).

Definition scaleFrom (keyIndex : Z) (intervals : list Z) : list (option string) :=
  map (fun interval =>
         let noteIndex := Z.rem (keyIndex + interval) 12 in
         get noteMap noteIndex)
      intervals.

Definition scaleNotes (key mode : string) : option (list (option string)) :=
  option_map (scaleFrom (keyIndex key)) (scales mode).

Section Synthesis.
Local Open Scope R_scope.

(** Helper function to get note frequency (needed for melody generation) *)
Definition getFrequency (note : option string) (octave : R) : R :=
  let noteMap := ["C"; "C#"; "D"; "D#"; "E"; "F"; "F#"; "G"; "G#"; "A"; "A#"; "B"]%string in
  let noteIndex := indexOf noteMap note in
  440 * Math_pow 2 ((IZR noteIndex - 9 + (octave - 4) * 12) / 12).

(** The closure of the same name inside [generateAudioFromMood]. *)
Definition getFrequency_inner (note : option string) (octave : R) : R :=
  let noteIndex := indexOf noteMap note in
  440 * Math_pow 2 ((IZR noteIndex - 9 + (octave - 4) * 12) / 12).

(** Create chord progressions based on actual mood *)
Definition getChordProgression (scale : string) : list Z :=
  if String.eqb scale "minor" then [0; 2; 5; 0]%Z   (* i-III-vi-i *)
  else [0; 3; 4; 0]%Z.                              (* I-IV-V-I *)

Record MoodVibe : Type := {
  bassType : string;
  melodyStyle : string;
  harmony : string;
  effects : list string;
  rhythmComplexity : Z
}.

Definition mkVibe b m h e c : MoodVibe :=
  {| bassType := b; melodyStyle := m; harmony := h; effects := e;
     rhythmComplexity := c |}.

(** The own properties of the object literal [vibes]. *)
Definition vibes : list (string * MoodVibe) :=
  [ ("upbeat",        mkVibe "bouncy" "dancing" "bright" ["sparkle"; "bounce"] 4);
    ("slow",          mkVibe "melancholic" "sorrowful" "emotional" ["reverb"; "tears"] 1);
    ("driving",       mkVibe "pounding" "soaring" "powerful" ["distortion"; "pulse"] 8);
    ("flowing",       mkVibe "gentle" "floating" "peaceful" ["wave"; "breath"] 2);
    ("irregular",     mkVibe "restless" "uncertain" "unsettled" ["flutter"; "hesitate"] 5);
    ("gentle",        mkVibe "soft" "lullaby" "warm" ["whisper"; "glow"] 1);
    ("energetic",     mkVibe "jumping" "celebrating" "vibrant" ["burst"; "fizz"] 6);
    ("contemplative", mkVibe "hollow" "longing" "nostalgic" ["drift"; "memory"] 1);
    ("steady",        mkVibe "solid" "precise" "clear" ["focus"; "sharp"] 2);
    ("romantic",      mkVibe "warm" "tender" "intimate" ["caress"; "velvet"] 3) ]%string.

(** Get mood-specific characteristics with unique vibes *)
Definition getMoodVibe (rhythm : string) (tempo : R) (scale : string)
  : option (Member MoodVibe) :=
  propertyOr vibes rhythm "flowing".

Inductive Waveform : Type := sine | triangle | sawtooth.

(** Helper function to generate different waveforms *)
Definition generateWaveform (frequency time : R) (type : Waveform) : R :=
  let phase := 2 * PI * frequency * time in
  match type with
  | sine => sin phase
  | triangle => (2 / PI) * asin (sin phase)
  | sawtooth => 2 * (phase / (2 * PI) - IZR (Math_floor (phase / (2 * PI) + 0.5)))
  end.

Local Open Scope rand_scope.

(** Generate noise for percussion effects *)
Definition generateNoise (time : R) : Rand R :=
  r <- Math_random ;;
  ret ((r * 2 - 1) * exp (- time * 10)).

(** Generate bass with unique characteristics.  The waveform primitive is
    a parameter of the section, so that the frequency at which the bass
    layer calls it can be observed; [generateBass] below is the
    program's function, with [generateWaveform] in that place. *)
Section BassLayer.
Variable wave : R -> R -> Waveform -> R.

Definition generateBassWith (bassType : string) (rootFreq time beat : R)
           (complexity : Z) : Rand R :=
  let bassFreq := rootFreq * 0.5 in
  if (bassType =? "bouncy")%string then          (* Happy *)
    let bouncePattern := if gt (sin (beat * PI * 2)) 0 then 1 else 0.3 in
    ret (0.4 * bouncePattern * wave bassFreq time triangle)
  else if (bassType =? "melancholic")%string then (* Sad *)
    let melancholyEnvelope := 0.4 + 0.3 * sin (time * 0.2) in
    let bassModulation := 1 + 0.1 * sin (time * 0.3) in
    ret (0.45 * melancholyEnvelope * wave (bassFreq * bassModulation) time sine)
  else if (bassType =? "pounding")%string then   (* Energetic *)
    let poundPattern :=
      if (complexity =? 0)%Z then 0.1   (* [x % 0] is [NaN], and [NaN < 2] is false *)
      else if (Z.rem (Math_floor (beat * IZR complexity)) complexity <? 2)%Z
      then 1 else 0.1 in
    let w := wave bassFreq time sawtooth in
    noise <- generateNoise time ;;
    ret (0.6 * poundPattern * (w + 0.3 * noise))
  else if (bassType =? "gentle")%string then     (* Calm *)
    ret (0.25 * (1 + 0.3 * sin (time * 0.5)) * wave bassFreq time sine)
  else if (bassType =? "restless")%string then   (* Anxious *)
    let restlessRate := 1 + 0.4 * sin (time * 1.5) in
    let restlessEnvelope := 0.35 + 0.15 * Rabs (sin (time * 2.3)) in
    ret (restlessEnvelope * wave (bassFreq * restlessRate) time triangle)
  else if (bassType =? "soft")%string then       (* Peaceful *)
    ret (0.2 * sin (time * 0.3 + PI / 4) * wave bassFreq time sine)
  else if (bassType =? "jumping")%string then    (* Excited *)
    let jump := if gt (sin (beat * PI * 4)) 0.5 then 1 else 0.2 in
    ret (0.45 * jump * wave bassFreq time triangle)
  else if (bassType =? "hollow")%string then     (* Melancholy *)
    ret (0.3 * (1 - exp (- time * 0.1)) * wave (bassFreq * 0.7) time triangle)
  else if (bassType =? "solid")%string then      (* Focused *)
    ret (0.35 * wave bassFreq time sawtooth)
  else if (bassType =? "warm")%string then       (* Romantic *)
    ret (0.3 * (1 + 0.2 * sin (time * 0.8)) * wave bassFreq time sine)
  else
    ret (0.3 * wave bassFreq time sawtooth).
End BassLayer.

Definition generateBass : string -> R -> R -> R -> Z -> Rand R :=
  generateBassWith generateWaveform.

(** Generate harmony with mood character *)
Definition generateHarmony (harmonyType : string) (root third fifth time tempo : R) : R :=
  let harmonicRate := tempo / 120 in
  if (harmonyType =? "bright")%string then          (* Happy *)
    let brightness := 0.3 + 0.2 * sin (time * harmonicRate) in
    brightness * (0.25 * generateWaveform root time triangle +
                  0.2 * generateWaveform third time triangle +
                  0.15 * generateWaveform fifth time triangle +
                  0.1 * generateWaveform (root * 2) time sine)
  else if (harmonyType =? "emotional")%string then  (* Sad *)
    let emotionalDepth := 0.25 + 0.15 * sin (time * 0.4) in
    let harmonyShift := 1 + 0.05 * sin (time * 0.6) in
    emotionalDepth * (0.8 * generateWaveform (root * harmonyShift) time sine +
                      0.6 * generateWaveform (third * 0.97) time sine +
                      0.4 * generateWaveform (fifth * 0.95) time triangle)
  else if (harmonyType =? "powerful")%string then   (* Energetic *)
    let power := 0.4 + 0.3 * Rabs (sin (time * harmonicRate * 2)) in
    power * (0.3 * generateWaveform root time sawtooth +
             0.25 * generateWaveform fifth time sawtooth)
  else if (harmonyType =? "peaceful")%string then   (* Calm *)
    0.2 * sin (time * 0.3) * (generateWaveform root time sine +
                              0.6 * generateWaveform third time sine)
  else if (harmonyType =? "unsettled")%string then  (* Anxious *)
    let unsettledShift := 1 + 0.2 * sin (time * 1.8) in
    let unsettledDepth := 0.28 + 0.12 * Rabs (sin (time * 2.1)) in
    unsettledDepth * (0.7 * generateWaveform (root * unsettledShift) time sine +
                      0.5 * generateWaveform (third * 1.05) time triangle +
                      0.3 * generateWaveform (fifth * 0.98) time sine)
  else if (harmonyType =? "warm")%string then       (* Peaceful *)
    0.18 * (1 + 0.4 * sin (time * 0.4)) *
    (generateWaveform root time sine + 0.5 * generateWaveform third time sine)
  else if (harmonyType =? "vibrant")%string then    (* Excited *)
    let vibrance := 0.35 + 0.25 * sin (time * harmonicRate * 1.5) in
    vibrance * (generateWaveform root time triangle +
                0.8 * generateWaveform fifth time triangle)
  else if (harmonyType =? "nostalgic")%string then  (* Melancholy *)
    0.2 * exp (- time * 0.05) * (generateWaveform (root * 0.95) time sine +
                                 0.6 * generateWaveform (third * 0.98) time sine)
  else if (harmonyType =? "clear")%string then      (* Focused *)
    0.25 * (generateWaveform root time triangle +
            0.7 * generateWaveform fifth time triangle)
  else if (harmonyType =? "intimate")%string then   (* Romantic *)
    0.22 * (1 + 0.3 * sin (time * 0.6)) *
    (generateWaveform root time sine + 0.8 * generateWaveform third time sine)
  else
    0.2 * (generateWaveform root time triangle +
           0.7 * generateWaveform third time triangle).

(** [scaleNotes[Math.floor(x % scaleNotes.length)]] *)
Definition noteAt (scaleNotes : list (option string)) (x : R) : option string :=
  getU scaleNotes (Math_floor (fmod x (INR (length scaleNotes)))).

(** Generate melody with unique style *)
Definition generateMelody (melodyStyle : string) (scaleNotes : list (option string))
           (time tempo : R) (measure : Z) : R :=
  let melodyRate := tempo / 120 in
  if (melodyStyle =? "dancing")%string then         (* Happy *)
    let danceFreq := getFrequency (noteAt scaleNotes (time * melodyRate * 2)) 5 in
    let dance := 0.25 * (1 + 0.5 * sin (time * melodyRate * 3)) in
    dance * generateWaveform danceFreq time sine
  else if (melodyStyle =? "sorrowful")%string then  (* Sad *)
    let sorrowFreq := getFrequency (noteAt scaleNotes (time * melodyRate * 0.6)) 4 in
    let sorrow := 0.28 * (0.8 + 0.4 * sin (time * 0.3)) * (1 + 0.1 * sin (time * 1.2)) in
    let bend := 1 + 0.08 * sin (time * 2.5) in      (* Pitch bending for emotion *)
    sorrow * generateWaveform (sorrowFreq * bend) time sine
  else if (melodyStyle =? "soaring")%string then    (* Energetic *)
    let soarFreq :=
      getFrequency (noteAt scaleNotes (time * melodyRate * 3))
                   (5 + IZR (Z.rem (Math_floor (time / 4)) 2)) in
    0.3 * generateWaveform soarFreq time sawtooth
  else if (melodyStyle =? "floating")%string then   (* Calm *)
    let floatFreq := getFrequency (noteAt scaleNotes (time * melodyRate * 0.8)) 4 in
    let float := 0.2 * (1 + 0.4 * sin (time * 0.3)) in
    float * generateWaveform floatFreq time sine
  else if (melodyStyle =? "uncertain")%string then  (* Anxious *)
    let uncertainFreq :=
      getFrequency
        (noteAt scaleNotes (time * melodyRate * (1.2 + 0.5 * sin (time * 1.7)))) 4 in
    let uncertainty :=
      0.26 * (0.7 + 0.3 * sin (time * 1.9)) * (1 + 0.1 * sin (time * 3.1)) in
    let waver := 1 + 0.05 * sin (time * 4.2) in     (* Slight pitch wavering *)
    uncertainty * generateWaveform (uncertainFreq * waver) time sine
  else if (melodyStyle =? "lullaby")%string then    (* Peaceful *)
    let lullabyFreq := getFrequency (noteAt scaleNotes (time * melodyRate * 0.4)) 4 in
    0.15 * sin (time * 0.2) * generateWaveform lullabyFreq time sine
  else if (melodyStyle =? "celebrating")%string then (* Excited *)
    let celebFreq := getFrequency (noteAt scaleNotes (time * melodyRate * 2.5)) 5 in
    let celebration := 0.28 * (1 + 0.6 * sin (time * melodyRate * 2)) in
    celebration * generateWaveform celebFreq time triangle
  else if (melodyStyle =? "longing")%string then    (* Melancholy *)
    let longFreq := getFrequency (noteAt scaleNotes (time * melodyRate * 0.3)) 4 in
    let longing := 0.18 * (1 + sin (time * 0.1)) in
    longing * generateWaveform longFreq time sine
  else if (melodyStyle =? "precise")%string then    (* Focused *)
    let preciseFreq := getFrequency (noteAt scaleNotes (time * melodyRate)) 4 in
    0.22 * generateWaveform preciseFreq time triangle
  else if (melodyStyle =? "tender")%string then     (* Romantic *)
    let tenderFreq := getFrequency (noteAt scaleNotes (time * melodyRate * 0.7)) 4 in
    let tenderness := 0.2 * (1 + 0.3 * sin (time * 0.5)) in
    tenderness * generateWaveform tenderFreq time sine
  else
    let defaultFreq := getFrequency (noteAt scaleNotes (time * melodyRate)) 4 in
    0.2 * generateWaveform defaultFreq time sine.

(** Apply mood-specific effects: one round of the [for ... of] loop, the
    [switch] on the effect name.  An effect that is not listed leaves
    [processed] as it is. *)
Definition applyEffect (sample time rootFreq tempo : R)
           (processed : R) (effect : string) : Rand R :=
  if (effect =? "sparkle")%string then              (* Happy *)
    ret (processed + 0.05 * sin (time * 8) * generateWaveform (rootFreq * 4) time sine)
  else if (effect =? "bounce")%string then          (* Happy *)
    ret (processed * (1 + 0.1 * Rabs (sin (time * tempo / 30))))
  else if (effect =? "reverb")%string then          (* Sad *)
    let processed := processed + 0.15 * sample * sin (time * 0.3 - PI / 3) in
    ret (processed + 0.08 * sample * sin (time * 0.7 - PI / 2))
  else if (effect =? "tears")%string then           (* Sad *)
    let tearDrop :=
      sin (time * 0.8) * exp (- (fmod time 4 - 2) * (fmod time 4 - 2)) in
    ret (processed + 0.12 * tearDrop * generateWaveform (rootFreq * 1.5) time sine)
  else if (effect =? "distortion")%string then      (* Energetic *)
    ret (tanh (processed * 1.5) * 0.8)
  else if (effect =? "pulse")%string then           (* Energetic *)
    ret (processed * (1 + 0.3 * sin (time * tempo / 15)))
  else if (effect =? "wave")%string then            (* Calm *)
    ret (processed + 0.05 * sin (time * 0.3) * sample)
  else if (effect =? "breath")%string then          (* Calm *)
    ret (processed * (1 + 0.1 * sin (time * 0.8)))
  else if (effect =? "flutter")%string then         (* Anxious *)
    let flutter := 1 + 0.08 * sin (time * 6.5) in
    ret (processed * flutter)
  else if (effect =? "hesitate")%string then        (* Anxious *)
    let hesitation := sin (time * 1.3) in
    if gt hesitation 0.8 then ret (processed * 0.6)
    else if lt hesitation (-0.8) then ret (processed * 1.2)
    else ret processed
  else if (effect =? "whisper")%string then         (* Peaceful *)
    ret (processed * (0.7 + 0.2 * sin (time * 0.2)))
  else if (effect =? "glow")%string then            (* Peaceful *)
    ret (processed + 0.03 * sin (time * 0.4) * generateWaveform (rootFreq * 2) time sine)
  else if (effect =? "burst")%string then           (* Excited *)
    let burstTime := fmod time 2 in
    if lt burstTime 0.1 then ret (processed * (1 + burstTime * 3)) else ret processed
  else if (effect =? "fizz")%string then            (* Excited *)
    r <- Math_random ;;
    ret (processed + 0.04 * (r - 0.5) * sin (time * 10))
  else if (effect =? "drift")%string then           (* Melancholy *)
    ret (processed + 0.08 * sample * sin (time * 0.1))
  else if (effect =? "memory")%string then          (* Melancholy *)
    ret (processed + 0.06 * sample * sin (time * 0.05 - PI / 2))
  else if (effect =? "focus")%string then           (* Focused *)
    ret (if gt processed 0 then Rmin processed 0.8 else Rmax processed (-0.8))
  else if (effect =? "sharp")%string then           (* Focused *)
    ret (processed * (1 + 0.05 * Math_sign processed))
  else if (effect =? "caress")%string then          (* Romantic *)
    ret (processed * (1 + 0.2 * sin (time * 0.7)))
  else if (effect =? "velvet")%string then          (* Romantic *)
    ret (Math_sign processed * Math_pow (Rabs processed) 0.8)
  else
    ret processed.

Fixpoint applyEffects (sample time rootFreq tempo : R)
         (effects : list string) (processed : R) : Rand R :=
  match effects with
  | [] => ret processed
  | effect :: rest =>
      processed' <- applyEffect sample time rootFreq tempo processed effect ;;
      applyEffects sample time rootFreq tempo rest processed'
  end.

Definition applyMoodEffects (sample : R) (effects : list string)
           (time rootFreq tempo : R) : Rand R :=
  applyEffects sample time rootFreq tempo effects sample.

(** The [AudioBuffer] of the Web Audio interface: one array of samples
    per channel, all zero when the buffer is created. *)
Record AudioBuffer : Type := {
  sampleRate : nat;
  channelData : list (list R)
}.

Definition createBuffer (numberOfChannels length sampleRate : nat) : AudioBuffer :=
  {| sampleRate := sampleRate;
     channelData := repeat (repeat 0 length) numberOfChannels |}.

Definition getChannelData (b : AudioBuffer) (channel : nat) : list R :=
  nth channel (channelData b) [].

(** [scaleNotes[d]] for a degree [d] that may be [undefined]. *)
Definition noteOfDegree (scaleNotes : list (option string)) (d : option Z) : option string :=
  match d with
  | Some d => getU scaleNotes d
  | None => None
  end.

(** The body of the sample loop of [generateAudioFromMood], up to the
    two stores: the value of [sample] for index [i]. *)
Definition renderSample (params : MusicParams) (sampleRate : nat)
           (scaleNotes : list (option string)) (chordProgression : list Z)
           (moodVibe : MoodVibe) (i : nat) : Rand R :=
  let beatLength := 60 / tempo params in           (* seconds per beat *)
  let measureLength := beatLength * 4 in           (* 4/4 time *)
  let time := INR i / INR sampleRate in
  (* Calculate current measure and beat *)
  let currentMeasure := Z.rem (Math_floor (time / measureLength)) 4 in
  let beatInMeasure := fmod time measureLength / beatLength in
  let currentChord := get chordProgression currentMeasure in
  let len := Z.of_nat (length scaleNotes) in
  (* Chord tones *)
  let root := getFrequency_inner (noteOfDegree scaleNotes currentChord) 3 in
  let third :=
    getFrequency_inner
      (noteOfDegree scaleNotes (option_map (fun c => Z.rem (c + 2) len) currentChord)) 3 in
  let fifth :=
    getFrequency_inner
      (noteOfDegree scaleNotes (option_map (fun c => Z.rem (c + 4) len) currentChord)) 3 in
  bass <- generateBass (bassType moodVibe) root time beatInMeasure
                       (rhythmComplexity moodVibe) ;;
  let sample := 0 + bass in
  let sample := sample + generateHarmony (harmony moodVibe) root third fifth time
                                         (tempo params) in
  let sample := sample + generateMelody (melodyStyle moodVibe) scaleNotes time
                                        (tempo params) currentMeasure in
  sample <- applyMoodEffects sample (effects moodVibe) time root (tempo params) ;;
  (* Apply overall envelope *)
  let envelope :=
    if lt time 2 then time / 2                      (* Fade in *)
    else if gt time (IZR duration - 3) then (IZR duration - time) / 3  (* Fade out *)
    else 1 in
  let sample := sample * envelope in
  (* Apply dynamic range based on mood *)
  let sample := if (scale params =? "minor")%string then sample * 0.7 else sample in
  (* Limit amplitude and add slight compression *)
  ret (tanh (sample * 0.8) * 0.9).

(** [for (let i = 0; i < numSamples; i++)], with the two channel arrays
    as the state of the loop. *)
Fixpoint renderLoop (body : nat -> Rand R) (remaining i : nat)
         (leftChannel rightChannel : list R) : Rand (list R * list R) :=
  match remaining with
  | O => ret (leftChannel, rightChannel)
  | S remaining' =>
      sample <- body i ;;
      renderLoop body remaining' (S i)
                 (set leftChannel i sample)
                 (set rightChannel i (sample * 0.95))   (* Slight stereo width *)
  end.

(** Enhanced audio generation with proper musical structure.
    [sampleRate] is [audioContext.sampleRate]; the draws of [Math.random]
    come from [o], starting at its first one.

    When [scales[params.scale]] is [undefined] the call of [map] throws.
    When [getMoodVibe] returns a member inherited from [Object.prototype],
    its [bassType], [harmony] and [melodyStyle] are [undefined], the three
    generators take their [default] branch, and the first round of the
    loop throws in [applyMoodEffects], whose [for ... of] iterates over
    the [undefined] value of [effects].  Were [getMoodVibe] to return
    [undefined], the first round would throw on reading [bassType]. *)
Definition generateAudioFromMood (params : MusicParams) (sampleRate : nat)
           (o : oracle) : Outcome AudioBuffer :=
  let numSamples := (sampleRate * Z.to_nat duration)%nat in
  (* Create audio buffer *)
  let audioBuffer := createBuffer 2 numSamples sampleRate in
  let leftChannel := getChannelData audioBuffer 0 in
  let rightChannel := getChannelData audioBuffer 1 in
  (* Generate scale based on key and mode *)
  match scaleNotes (key params) (scale params) with
  | None => Thrown TypeError
  | Some scaleNotes =>
      let chordProgression := getChordProgression (scale params) in
      match getMoodVibe (rhythm params) (tempo params) (scale params) with
      | None | Some (Inherited _) =>
          match numSamples with
          | O => Returned audioBuffer
          | S _ => Thrown TypeError
          end
      | Some (Own moodVibe) =>
          let body := renderSample params sampleRate scaleNotes chordProgression moodVibe in
          let (channels, _) := renderLoop body numSamples 0 leftChannel rightChannel o 0%nat in
          Returned {| sampleRate := sampleRate;
                      channelData := [fst channels; snd channels] |}
      end
  end.

(** *** Notions used to state the properties *)

(** A call of the frequency operation as the caller sees it.
    [getFrequency] has no [throw] and calls nothing that throws, so the
    call always returns. *)
Definition frequency (note : string) (octave : R) : Outcome R :=
  Returned (getFrequency (Some note) octave).

(** Seven pairwise distinct note names, as an array without holes. *)
Definition sevenDistinctNotes (notes : list (option string)) : Prop :=
  exists names : list string,
    notes = map Some names
    /\ List.length names = 7%nat
    /\ NoDup names
    /\ incl names noteMap.

(** The ten rhythm identifiers: the own keys of [vibes]. *)
Definition rhythmIdentifiers : list string := map fst vibes.

(** The frequency at which [generateBass] calls the waveform primitive,
    read off its branches. *)
Definition bassPitch (bassType : string) (rootFreq time : R) : R :=
  if (bassType =? "melancholic")%string then rootFreq * 0.5 * (1 + 0.1 * sin (time * 0.3))
  else if (bassType =? "restless")%string then rootFreq * 0.5 * (1 + 0.4 * sin (time * 1.5))
  else if (bassType =? "hollow")%string then rootFreq * 0.5 * 0.7
  else rootFreq * 0.5.

(** The ten bass styles of the profiles. *)
Definition bassStyles : list string := map (fun e => bassType (snd e)) vibes.

(** A computation that draws nothing from the oracle. *)
Definition drawFree {A : Type} (m : Rand A) : Prop :=
  exists v : A, forall (o : oracle) (n : nat), m o n = (v, n).

End Synthesis.

End Audio.

(** ** The server: mood detection and the generate-music route *)

Module Server.

(** A text is a sequence of code units below 256 (the Latin-1 range). *)

Definition isWhitespace (c : ascii) : bool :=
  let n := nat_of_ascii c in
  ((9 <=? n) && (n <=? 13) || (n =? 32) || (n =? 160))%nat.

Definition lowerChar (c : ascii) : ascii :=
  let n := nat_of_ascii c in
  if ((65 <=? n) && (n <=? 90))%nat then ascii_of_nat (n + 32)
  else if ((192 <=? n) && (n <=? 222) && negb (n =? 215))%nat then ascii_of_nat (n + 32)
  else c.

(** [toUpperCase] of one character, for the letters whose capital is a single
    code unit below 256. *)
Definition upperChar (c : ascii) : ascii :=
  let n := nat_of_ascii c in
  if ((97 <=? n) && (n <=? 122))%nat then ascii_of_nat (n - 32)
  else if ((224 <=? n) && (n <=? 254) && negb (n =? 247))%nat then ascii_of_nat (n - 32)
  else c.

Fixpoint toLowerCase (s : string) : string :=
  match s with
  | EmptyString => EmptyString
  | String c rest => String (lowerChar c) (toLowerCase rest)
  end.

(** [text.includes(keyword)] *)
Fixpoint includes (text keyword : string) : bool :=
  prefix keyword text ||
  match text with
  | EmptyString => false
  | String _ rest => includes rest keyword
  end.

(** [(text.match(new RegExp(keyword, 'g')) || []).length] for a keyword
    made of letters: the matches are found from left to right and do not
    overlap; [skip] counts the characters of the last match that are still
    to be passed. *)
Fixpoint countMatchesFrom (keyword text : string) (skip : nat) : Z :=
  match text with
  | EmptyString => 0
  | String _ rest =>
      match skip with
      | S k => countMatchesFrom keyword rest k
      | O =>
          if prefix keyword text
          then 1 + countMatchesFrom keyword rest (String.length keyword - 1)
          else countMatchesFrom keyword rest 0
      end
  end.

Definition countMatches (text keyword : string) : Z :=
  countMatchesFrom keyword text 0.

(** [text.split(/\s+/).length]: one more than the number of maximal runs
    of whitespace. *)
Fixpoint whitespaceRuns (s : string) (inRun : bool) : Z :=
  match s with
  | EmptyString => 0
  | String c rest =>
      if isWhitespace c
      then (if inRun then 0 else 1) + whitespaceRuns rest true
      else whitespaceRuns rest false
  end.

Definition splitLength (s : string) : Z := 1 + whitespaceRuns s false.

Definition moodKeywords : list (string * list string) :=
  [ ("happy", ["happy"; "joy"; "excited"; "cheerful"; "glad"; "pleased"; "delighted";
               "elated"; "upbeat"; "positive"]);
    ("sad", ["sad"; "depressed"; "down"; "melancholy"; "blue"; "unhappy"; "sorrowful";
             "gloomy"; "dejected"]);
    ("energetic", ["energetic"; "pumped"; "hyper"; "active"; "dynamic"; "vigorous";
                   "lively"; "spirited"]);
    ("calm", ["calm"; "peaceful"; "relaxed"; "serene"; "tranquil"; "quiet"; "still";
              "composed"]);
    ("anxious", ["anxious"; "worried"; "nervous"; "stressed"; "tense"; "uneasy";
                 "concerned"; "apprehensive"]);
    ("peaceful", ["peaceful"; "zen"; "meditation"; "mindful"; "harmony"; "balance";
                  "serenity"]);
    ("excited", ["thrilled"; "ecstatic"; "enthusiastic"; "eager"; "animated"; "exuberant"]);
    ("melancholy", ["nostalgic"; "wistful"; "pensive"; "reflective"; "bittersweet"]);
    ("focused", ["focused"; "concentrated"; "determined"; "motivated"; "driven";
                 "productive"]);
    ("romantic", ["love"; "romantic"; "affectionate"; "tender"; "passionate"; "intimate"]) ].

(** The ten mood identifiers of the application (the [MOODS] table). *)
Definition MOODS : list string :=
  [ "happy"; "sad"; "energetic"; "calm"; "anxious"; "peaceful"; "excited";
    "melancholy"; "focused"; "romantic" ].

(** [Math.round] *)
Definition Math_round (x : Q) : Z := Qfloor (x + (1 # 2)).

Definition Math_min (x y : Q) : Q := if Qle_bool x y then x else y.
Definition Math_max (x y : Q) : Q := if Qle_bool x y then y else x.

(** [xs.reduce(f)] without an initial value. *)
Definition reduce {A : Type} (f : A -> A -> A) (xs : list A) : Outcome A :=
  match xs with
  | [] => Thrown TypeError
  | x :: rest => Returned (fold_left f rest x)
  end.

(** [scores[mood] > scores[mood']]; a missing score is [undefined], which
    compares false. *)
Definition scoreGt (scores : list (string * Z)) (m m' : string) : bool :=
  match ownProperty scores m, ownProperty scores m' with
  | Some x, Some y => x >? y
  | _, _ => false
  end.

Record MoodAnalysis : Type := { mood : string; confidence : Z }.

(** Simple mood detection using keyword matching *)
Definition analyzeMoodFromText (text : string) : Outcome MoodAnalysis :=
  let lowerText := toLowerCase text in
  (* Calculate scores for each mood *)
  let scores : list (string * Z) :=
    map (fun '(mood, keywords) =>
           (mood, fold_left (fun score keyword =>
                               let matches := countMatches lowerText keyword in
                               score + matches)
                            keywords 0))
        moodKeywords in
  (* Find the mood with the highest score *)
  match reduce (fun a b => if scoreGt scores (fst a) (fst b) then a else b) scores with
  | Thrown e => Thrown e
  | Returned topMood =>
      (* Calculate confidence based on keyword matches *)
      let totalWords := splitLength text in
      let confidence :=
        Math_min 95 (Math_max 30 ((inject_Z (snd topMood) / inject_Z totalWords) * 100 + 30))%Q in
      Returned {| mood := if snd topMood >? 0 then fst topMood else "calm";
                  confidence := Math_round confidence |}
  end.

(** No keyword of any mood occurs in the text, as the program looks for
    them: in the lower-cased text. *)
Definition noKeywordOccurs (text : string) : bool :=
  forallb (fun entry => forallb (fun keyword => negb (includes (toLowerCase text) keyword))
                                (snd entry))
          moodKeywords.

(** *** The generate-music route *)

Record Params : Type := {
  tempo : Z;
  key : string;
  scale : string;
  rhythm : string
}.

Definition moodParams : list (string * Params) :=
  [ ("happy",      {| tempo := 120; key := "C";  scale := "major"; rhythm := "upbeat" |});
    ("sad",        {| tempo := 60;  key := "D";  scale := "minor"; rhythm := "slow" |});
    ("energetic",  {| tempo := 140; key := "E";  scale := "major"; rhythm := "driving" |});
    ("calm",       {| tempo := 70;  key := "F";  scale := "major"; rhythm := "flowing" |});
    ("anxious",    {| tempo := 100; key := "G";  scale := "minor"; rhythm := "irregular" |});
    ("peaceful",   {| tempo := 65;  key := "A";  scale := "major"; rhythm := "gentle" |});
    ("excited",    {| tempo := 130; key := "B";  scale := "major"; rhythm := "energetic" |});
    ("melancholy", {| tempo := 55;  key := "Em"; scale := "minor"; rhythm := "contemplative" |});
    ("focused",    {| tempo := 90;  key := "Am"; scale := "minor"; rhythm := "steady" |});
    ("romantic",   {| tempo := 75;  key := "G";  scale := "major"; rhythm := "romantic" |}) ].

Definition generateMusicParameters (mood : string) : option (Member Params) :=
  propertyOr moodParams mood "calm".

Definition moodEmojis : list (string * string) :=
  [ ("happy", "😊"); ("sad", "😢"); ("energetic", "⚡"); ("calm", "🧘");
    ("anxious", "😰"); ("peaceful", "☮️"); ("excited", "🎉"); ("melancholy", "🌙");
    ("focused", "🎯"); ("romantic", "💕") ].

Definition getMoodEmoji (mood : string) : Member string :=
  match property moodEmojis mood with
  | Some m => m
  | None => Own "😊"
  end.

Definition titles : list string :=
  [ "Melody #1"; "Vibes #2"; "Symphony"; "Harmony"; "Rhythm"; "Composition";
    "Theme"; "Ballad"; "Tune"; "Song"; "Piece"; "Track" ].

(** [Math.random()] on the server: the draws are rationals of [[0, 1)],
    read from an oracle; a handler is given the index of the next draw. *)
Definition draws : Type := nat -> Q.

Definition getRandomTitle (r : Q) : option string :=
  get titles (Qfloor (r * inject_Z (Z.of_nat (List.length titles)))).

(** [str.charAt(0).toUpperCase() + str.slice(1)], for a first character
    whose capital is a single code unit below 256 (all but U+00DF, U+00FF
    and U+00B5 in this range). *)
Definition capitalizeFirst (str : string) : string :=
  match str with
  | EmptyString => EmptyString
  | String c rest => String (upperChar c) rest
  end.

(** The [duration] field: [Math.floor(Math.random() * 30) + 30]. *)
Definition randomDuration (r : Q) : Z := Qfloor (r * 30) + 30.

Record MusicTrack : Type := {
  id : nat;
  title : string;
  trackMood : string;
  moodEmoji : Member string;
  duration : Z;
  audioData : option string;
  userId : option string
}.

Record Storage : Type := {
  musicTracks : list MusicTrack
}.

(** [storage.createMusicTrack]; the identifier, a random UUID in the
    program, is the rank of the track in the store, and the creation date is
    left out. *)
Definition createMusicTrack (st : Storage) (title mood : string) (emoji : Member string)
           (duration : Z) : MusicTrack * Storage :=
  let track := {| id := List.length (musicTracks st); title := title; trackMood := mood;
                  moodEmoji := emoji;
                  duration := duration; audioData := None; userId := None |} in
  (track, {| musicTracks := musicTracks st ++ [track] |}).

Record Response : Type := {
  res_trackId : nat;
  res_title : string;
  res_mood : string;
  res_emoji : Member string;
  res_duration : Z;
  res_musicParams : option (Member Params)
}.

(** The handler of [POST /api/generate-music] once [moodSelectSchema] has
    accepted the body: the successful path.  [n] is the index of the next
    draw of [Math.random]; the title takes the first draw, the duration
    the second. *)
Definition generateMusic (mood : string) (o : draws) (n : nat) (st : Storage)
  : Response * Storage * nat :=
  (* Generate music parameters based on mood *)
  let musicParams := generateMusicParameters mood in
  let randomTitle := match getRandomTitle (o n) with
                     | Some t => t
                     | None => "undefined"
                     end in
  let '(track, st') :=
    createMusicTrack st
      (capitalizeFirst mood ++ " " ++ randomTitle)
      mood
      (getMoodEmoji mood)
      (randomDuration (o (S n))) (* 30-60 seconds *) in
  ({| res_trackId := id track;
      res_title := title track;
      res_mood := trackMood track;
      res_emoji := moodEmoji track;
      res_duration := duration track;
      res_musicParams := musicParams |}, st', S (S n)).

End Server.

(** ** The steps of one round of the sample loop *)

Module Mixer.
Import Audio.

Section Steps.
Local Open Scope R_scope.
Local Open Scope rand_scope.

(** [time = i / sampleRate] *)
Definition sampleTime (sampleRate i : nat) : R := INR i / INR sampleRate.

Definition beatLength (params : MusicParams) : R := 60 / tempo params.

Definition measureLength (params : MusicParams) : R := beatLength params * 4.

(** [Math.floor(time / measureLength) % 4] *)
Definition currentMeasure (params : MusicParams) (time : R) : Z :=
  Z.rem (Math_floor (time / measureLength params)) 4.

(** [(time % measureLength) / beatLength] *)
Definition beatInMeasure (params : MusicParams) (time : R) : R :=
  fmod time (measureLength params) / beatLength params.

(** The notes of the root, third and fifth of the current chord:
    [scaleNotes[currentChord]], [scaleNotes[(currentChord + 2) % length]]
    and [scaleNotes[(currentChord + 4) % length]]. *)
Definition chordNotes (scaleNotes : list (option string)) (chordProgression : list Z)
           (currentMeasure : Z) : option string * option string * option string :=
  let currentChord := get chordProgression currentMeasure in
  let len := Z.of_nat (length scaleNotes) in
  (noteOfDegree scaleNotes currentChord,
   noteOfDegree scaleNotes (option_map (fun c => Z.rem (c + 2) len) currentChord),
   noteOfDegree scaleNotes (option_map (fun c => Z.rem (c + 4) len) currentChord)).

(** The overall envelope: fade in over two seconds, fade out over the last
    three. *)
Definition envelope (time : R) : R :=
  if lt time 2 then time / 2
  else if gt time (IZR duration - 3) then (IZR duration - time) / 3
  else 1.

(** The sum of the three layers, before the effects. *)
Definition layers (params : MusicParams) (scaleNotes : list (option string))
           (moodVibe : MoodVibe) (time : R) (measure : Z) (beat root third fifth : R)
  : Rand R :=
  bass <- generateBass (bassType moodVibe) root time beat (rhythmComplexity moodVibe) ;;
  ret (0 + bass
       + generateHarmony (harmony moodVibe) root third fifth time (tempo params)
       + generateMelody (melodyStyle moodVibe) scaleNotes time (tempo params) measure).

(** Envelope, gain of the minor scale and soft clip. *)
Definition finish (params : MusicParams) (time sample : R) : R :=
  let sample := sample * envelope time in
  let sample := if (scale params =? "minor")%string then sample * 0.7 else sample in
  tanh (sample * 0.8) * 0.9.

(** One round of the loop, put together from the steps above. *)
Definition mixdown (params : MusicParams) (sampleRate : nat)
           (scaleNotes : list (option string)) (chordProgression : list Z)
           (moodVibe : MoodVibe) (i : nat) : Rand R :=
  let time := sampleTime sampleRate i in
  let measure := currentMeasure params time in
  let '(r, t, f) := chordNotes scaleNotes chordProgression measure in
  let root := getFrequency_inner r 3 in
  let third := getFrequency_inner t 3 in
  let fifth := getFrequency_inner f 3 in
  sample <- layers params scaleNotes moodVibe time measure
                   (beatInMeasure params time) root third fifth ;;
  sample <- applyMoodEffects sample (effects moodVibe) time root (tempo params) ;;
  ret (finish params time sample).

(** The twenty effect names that [applyMoodEffects] knows. *)
Definition effectNames : list string :=
  [ "sparkle"; "bounce"; "reverb"; "tears"; "distortion"; "pulse"; "wave"; "breath";
    "flutter"; "hesitate"; "whisper"; "glow"; "burst"; "fizz"; "drift"; "memory";
    "focus"; "sharp"; "caress"; "velvet" ]%string.

End Steps.

End Mixer.

(** ** Arrays and maps of the JavaScript library *)

Module JSArray.

Section Sorting.
Context {A : Type}.

(** [xs.sort(compare)].  The sort of the language is stable, so for a
    consistent comparison function the result is the stable sorted
    arrangement, whatever the algorithm; it is computed here by insertion. *)
Fixpoint insertBy (compare : A -> A -> Z) (x : A) (sorted : list A) : list A :=
  match sorted with
  | [] => [x]
  | y :: rest =>
      if compare x y <=? 0 then x :: y :: rest else y :: insertBy compare x rest
  end.

Fixpoint sortBy (compare : A -> A -> Z) (xs : list A) : list A :=
  match xs with
  | [] => []
  | x :: rest => insertBy compare x (sortBy compare rest)
  end.

(** A [Map] with string keys: the entries in insertion order; [set] on a key
    of the map replaces its value in place. *)
Fixpoint mapSet (m : list (string * A)) (k : string) (v : A) : list (string * A) :=
  match m with
  | [] => [(k, v)]
  | (k', v') :: rest =>
      if String.eqb k' k then (k, v) :: rest else (k', v') :: mapSet rest k v
  end.

Definition mapGet (m : list (string * A)) (k : string) : option A := ownProperty m k.

Definition mapValues (m : list (string * A)) : list A := map snd m.

End Sorting.

End JSArray.

(** ** The in-memory storage of the server *)

Module MemStorage.
Import JSArray.

Record User : Type := {
  user_id : string;
  username : string;
  password : string
}.

Record InsertUser : Type := {
  insert_username : string;
  insert_password : string
}.

Record MusicTrack : Type := {
  id : string;
  title : string;
  mood : string;
  moodEmoji : string;
  duration : Z;
  audioData : option string;
  userId : option string;
  createdAt : Z            (* [getTime()] of the date, in milliseconds *)
}.

Record InsertMusicTrack : Type := {
  insert_title : string;
  insert_mood : string;
  insert_moodEmoji : string;
  insert_duration : Z;
  insert_audioData : option string;
  insert_userId : option string
}.

Record MoodAnalysis : Type := {
  analysis_id : string;
  inputText : string;
  detectedMood : string;
  confidence : Z;
  analysis_createdAt : Z
}.

Record InsertMoodAnalysis : Type := {
  insert_inputText : string;
  insert_detectedMood : string;
  insert_confidence : Z
}.

(** The three maps of a [MemStorage] object. *)
Record State : Type := {
  users : list (string * User);
  musicTracks : list (string * MusicTrack);
  moodAnalyses : list (string * MoodAnalysis)
}.

(** [new MemStorage()] *)
Definition empty : State := {| users := []; musicTracks := []; moodAnalyses := [] |}.

Definition getUser (st : State) (id : string) : option User := mapGet (users st) id.

(** [Array.from(this.users.values()).find(user => user.username === username)] *)
Definition getUserByUsername (st : State) (name : string) : option User :=
  find (fun user => String.eqb (username user) name) (mapValues (users st)).

(** In the three [create] methods, [uuid] is the value of [randomUUID()] and
    [now] the time of [new Date()]. *)
Definition createUser (st : State) (uuid : string) (insertUser : InsertUser) : User * State :=
  let user := {| user_id := uuid;
                 username := insert_username insertUser;
                 password := insert_password insertUser |} in
  (user, {| users := mapSet (users st) uuid user;
            musicTracks := musicTracks st;
            moodAnalyses := moodAnalyses st |}).

Definition createMusicTrack (st : State) (uuid : string) (now : Z)
           (insertTrack : InsertMusicTrack) : MusicTrack * State :=
  let track := {| id := uuid;
                  title := insert_title insertTrack;
                  mood := insert_mood insertTrack;
                  moodEmoji := insert_moodEmoji insertTrack;
                  duration := insert_duration insertTrack;
                  audioData := insert_audioData insertTrack;
                  userId := insert_userId insertTrack;
                  createdAt := now |} in
  (track, {| users := users st;
             musicTracks := mapSet (musicTracks st) uuid track;
             moodAnalyses := moodAnalyses st |}).


(** [(a, b) => b.createdAt.getTime() - a.createdAt.getTime()] *)
Definition newestFirst (a b : MusicTrack) : Z := createdAt b - createdAt a.

Definition getAllMusicTracks (st : State) : list MusicTrack :=
  sortBy newestFirst (mapValues (musicTracks st)).

(** [!userId || track.userId === userId]: the empty string is falsy, like
    [undefined]. *)
Definition ofUser (userId : option string) (track : MusicTrack) : bool :=
  match userId with
  | None => true
  | Some u =>
      if String.eqb u "" then true
      else match MemStorage.userId track with
           | Some u' => String.eqb u' u
           | None => false
           end
  end.

Definition getUserMusicTracks (st : State) (userId : option string) : list MusicTrack :=
  sortBy newestFirst (filter (ofUser userId) (mapValues (musicTracks st))).

Definition createMoodAnalysis (st : State) (uuid : string) (now : Z)
           (insertAnalysis : InsertMoodAnalysis) : MoodAnalysis * State :=
  let analysis := {| analysis_id := uuid;
                     inputText := insert_inputText insertAnalysis;
                     detectedMood := insert_detectedMood insertAnalysis;
                     confidence := insert_confidence insertAnalysis;
                     analysis_createdAt := now |} in
  (analysis, {| users := users st;
                musicTracks := musicTracks st;
                moodAnalyses := mapSet (moodAnalyses st) uuid analysis |}).

Definition getMoodAnalyses (st : State) : list MoodAnalysis :=
  sortBy (fun a b => analysis_createdAt b - analysis_createdAt a)
         (mapValues (moodAnalyses st)).

End MemStorage.

(** ** The request schemas and the two POST routes *)

Module Routes.
Import Server.

(** A parsed JSON body: an object with its fields, or anything else.  The
    value of a field matters to the schemas only when it is a string. *)
Inductive Value : Type :=
| VNull
| VBool (b : bool)
| VNumber (q : Q)
| VString (s : string)
| VNested.                     (* an array or an object *)

Inductive Json : Type :=
| JObject (fields : list (string * Value))
| JOther.                      (* undefined, null, a scalar or an array *)

Inductive Parsed (A : Type) : Type :=
| Valid (a : A)
| ZodError.
Arguments Valid {A} a.
Arguments ZodError {A}.

(** [body[name]] for the field of a schema. *)
Definition field (body : Json) (name : string) : option Value :=
  match body with
  | JObject fields => ownProperty fields name
  | JOther => None
  end.

(** [z.object({ mood: z.enum(MOODS) }).parse(body)] *)
Definition moodSelectSchema (body : Json) : Parsed string :=
  match body with
  | JObject _ =>
      match field body "mood" with
      | Some (VString mood) =>
          if existsb (String.eqb mood) MOODS then Valid mood else ZodError
      | _ => ZodError
      end
  | JOther => ZodError
  end.

(** [z.object({ text: z.string().min(3).max(500) }).parse(body)] *)
Definition textAnalysisSchema (body : Json) : Parsed string :=
  match body with
  | JObject _ =>
      match field body "text" with
      | Some (VString text) =>
          if (3 <=? String.length text)%nat && (String.length text <=? 500)%nat
          then Valid text else ZodError
      | _ => ZodError
      end
  | JOther => ZodError
  end.

Inductive Reply (A : Type) : Type :=
| Json200 (body : A)
| Status400 (message : string)
| Status500 (message : string).
Arguments Json200 {A} body.
Arguments Status400 {A} message.
Arguments Status500 {A} message.

(** [POST /api/generate-music] *)
Definition postGenerateMusic (body : Json) (o : draws) (n : nat) (st : Storage)
  : Reply Response * Storage * nat :=
  match moodSelectSchema body with
  | ZodError => (Status400 "Invalid mood", st, n)
  | Valid mood =>
      let '(res, st', n') := generateMusic mood o n st in
      (Json200 res, st', n')
  end.

Record AnalysisResponse : Type := {
  res_mood : string;
  res_confidence : Z;
  res_analysisId : string
}.

(** [POST /api/analyze-mood]; [uuid] and [now] are the identifier and the
    date that the storage gives to the new analysis. *)
Definition postAnalyzeMood (body : Json) (uuid : string) (now : Z) (st : MemStorage.State)
  : Reply AnalysisResponse * MemStorage.State :=
  match textAnalysisSchema body with
  | ZodError => (Status400 "Invalid input", st)
  | Valid text =>
      match analyzeMoodFromText text with
      | Thrown _ => (Status500 "Failed to analyze mood", st)
      | Returned r =>
          let '(analysis, st') :=
            MemStorage.createMoodAnalysis st uuid now
              {| MemStorage.insert_inputText := text;
                 MemStorage.insert_detectedMood := mood r;
                 MemStorage.insert_confidence := confidence r |} in
          (Json200 {| res_mood := mood r;
                      res_confidence := confidence r;
                      res_analysisId := MemStorage.analysis_id analysis |}, st')
      end
  end.

(** The parameters as the client reads them from the response. *)
Definition clientParams (p : Params) : Audio.MusicParams :=
  {| Audio.tempo := IZR (tempo p);
     Audio.key := key p;
     Audio.scale := scale p;
     Audio.rhythm := rhythm p |}.

End Routes.

(** ** Notions used to state the properties of the server's mood detection *)

Module Scores.
Import Server.

(** The score of one mood: the matches of its keywords, added up. *)
Definition keywordScore (lowerText : string) (keywords : list string) : Z :=
  fold_left (fun score keyword => score + countMatches lowerText keyword) keywords 0.

(** The [scores] object of [analyzeMoodFromText], in the order of its keys. *)
Definition scoreTable (text : string) : list (string * Z) :=
  map (fun entry => (fst entry, keywordScore (toLowerCase text) (snd entry))) moodKeywords.

(** [Math.round(Math.min(95, Math.max(30, (score / words) * 100 + 30)))] *)
Definition clampedConfidence (score words : Z) : Z :=
  Math_round (Math_min 95 (Math_max 30 ((inject_Z score / inject_Z words) * 100 + 30))%Q).

End Scores.

(** ** The mood analysis of the client *)

Module ClientMood.
Import JSArray.
Import Server.

Record MoodAnalysisResult : Type := {
  result_mood : string;
  result_confidence : Z;
  result_keywords : list string
}.

Definition moodKeywords : list (string * list string) :=
  [ ("happy", ["happy"; "joy"; "excited"; "cheerful"; "glad"; "pleased"; "delighted";
               "elated"; "upbeat"; "positive"; "great"; "awesome"; "fantastic";
               "wonderful"]);
    ("sad", ["sad"; "depressed"; "down"; "melancholy"; "blue"; "unhappy"; "sorrowful";
             "gloomy"; "dejected"; "miserable"; "terrible"; "awful"; "horrible"]);
    ("energetic", ["energetic"; "pumped"; "hyper"; "active"; "dynamic"; "vigorous";
                   "lively"; "spirited"; "powerful"; "strong"; "motivated"; "driven"]);
    ("calm", ["calm"; "peaceful"; "relaxed"; "serene"; "tranquil"; "quiet"; "still";
              "composed"; "content"; "mellow"; "chill"; "zen"]);
    ("anxious", ["anxious"; "worried"; "nervous"; "stressed"; "tense"; "uneasy";
                 "concerned"; "apprehensive"; "fearful"; "restless"; "overwhelmed"]);
    ("peaceful", ["peaceful"; "zen"; "meditation"; "mindful"; "harmony"; "balance";
                  "serenity"; "tranquility"; "stillness"]);
    ("excited", ["thrilled"; "ecstatic"; "enthusiastic"; "eager"; "animated";
                 "exuberant"; "pumped up"; "stoked"]);
    ("melancholy", ["nostalgic"; "wistful"; "pensive"; "reflective"; "bittersweet";
                    "longing"; "contemplative"]);
    ("focused", ["focused"; "concentrated"; "determined"; "motivated"; "driven";
                 "productive"; "sharp"; "clear"]);
    ("romantic", ["love"; "romantic"; "affectionate"; "tender"; "passionate"; "intimate";
                  "loving"; "sweet"]) ].

(** [\w]: a letter, a digit or the underscore. *)
Definition isWordChar (c : ascii) : bool :=
  let n := nat_of_ascii c in
  ((65 <=? n) && (n <=? 90) || (97 <=? n) && (n <=? 122)
   || (48 <=? n) && (n <=? 57) || (n =? 95))%nat.

Definition isWord (c : option ascii) : bool :=
  match c with
  | Some c => isWordChar c
  | None => false
  end.

(** [\b] between two neighbouring characters; [None] is the outside of the
    text. *)
Definition boundary (before after : option ascii) : bool :=
  xorb (isWord before) (isWord after).

Definition lastChar (s : string) : option ascii :=
  match String.length s with
  | O => None
  | S k => String.get k s
  end.

(** [\bkeyword\b] matches at the head of [text], which follows the character
    [prev]. *)
Definition matchesAt (keyword : string) (prev : option ascii) (text : string) : bool :=
  prefix keyword text
  && boundary prev (String.get 0 text)
  && boundary (match lastChar keyword with Some c => Some c | None => prev end)
              (String.get (String.length keyword) text).

(** The length of [lowerText.match(new RegExp(`\\b${keyword}\\b`, 'gi'))]
    (0 for [null]), for a non-empty lower-case keyword and a lower-cased
    text: the matches are found from left to right and do not overlap. *)
Fixpoint countWordMatchesFrom (keyword text : string) (prev : option ascii) (skip : nat)
  : Z :=
  match text with
  | EmptyString => 0
  | String c rest =>
      match skip with
      | S k => countWordMatchesFrom keyword rest (Some c) k
      | O =>
          if matchesAt keyword prev text
          then 1 + countWordMatchesFrom keyword rest (Some c) (String.length keyword - 1)
          else countWordMatchesFrom keyword rest (Some c) 0
      end
  end.

Definition countWordMatches (text keyword : string) : Z :=
  countWordMatchesFrom keyword text None 0.

Record Score : Type := {
  score : Z;
  matchedKeywords : list string
}.

(** One round of [keywords.forEach] for a mood. *)
Definition addKeyword (lowerText : string) (s : Score) (keyword : string) : Score :=
  let matches := countWordMatches lowerText keyword in
  if 0 <? matches
  then {| score := score s + matches;
          matchedKeywords :=
            if existsb (String.eqb keyword) (matchedKeywords s)
            then matchedKeywords s
            else (matchedKeywords s ++ [keyword])%list |}
  else s.

(** The [scores] object once the two [forEach] loops have run. *)
Definition scoresOf (lowerText : string) : list (string * Score) :=
  map (fun entry =>
         (fst entry,
          fold_left (addKeyword lowerText) (snd entry)
                    {| score := 0; matchedKeywords := [] |}))
      moodKeywords.

(** [([, a], [, b]) => b.score - a.score] *)
Definition byScore (a b : string * Score) : Z := score (snd b) - score (snd a).

Definition sortedMoods (lowerText : string) : list (string * Score) :=
  filter (fun entry => 0 <? score (snd entry))
         (sortBy byScore (scoresOf lowerText)).

Definition positiveWords : list string :=
  ["good"; "nice"; "well"; "fine"; "ok"; "okay"; "alright"; "better"].

Definition negativeWords : list string :=
  ["bad"; "not"; "never"; "no"; "hard"; "difficult"; "tough"; "rough"].

Definition countIncluded (lowerText : string) (words : list string) : Z :=
  fold_left (fun n word => if includes lowerText word then n + 1 else n) words 0.

(** No keywords matched, analyze sentence structure and common words *)
Definition sentimentFallback (lowerText : string) : MoodAnalysisResult :=
  let positiveScore := countIncluded lowerText positiveWords in
  let negativeScore := countIncluded lowerText negativeWords in
  if positiveScore >? negativeScore
  then {| result_mood := "happy"; result_confidence := 40; result_keywords := [] |}
  else if negativeScore >? positiveScore
  then {| result_mood := "sad"; result_confidence := 40; result_keywords := [] |}
  else {| result_mood := "calm"; result_confidence := 30; result_keywords := [] |}.

(** No keyword of any mood occurs in the lower-cased text. *)
Definition noWordOccurs (text : string) : bool :=
  forallb (fun entry => forallb (fun keyword => negb (includes (toLowerCase text) keyword))
                                (snd entry))
          moodKeywords.

(** What the loop over the keywords of a mood keeps true of its score. *)
Definition scoreInvariant (lowerText : string) (keywords : list string) (s : Score) : Prop :=
  0 <= score s
  /\ (score s = 0 -> matchedKeywords s = [])
  /\ forall k, In k (matchedKeywords s) ->
               In k keywords /\ 0 < countWordMatches lowerText k.

Definition analyzeMoodFromText (text : string) : MoodAnalysisResult :=
  let lowerText := toLowerCase text in
  match sortedMoods lowerText with
  | [] => sentimentFallback lowerText
  | topMood :: others =>
      let totalWords := splitLength lowerText in
      let keywordDensity := (inject_Z (score (snd topMood)) / inject_Z totalWords)%Q in
      (* Calculate confidence based on keyword matches and density *)
      let confidence := Math_min 95 (Math_max 30 (keywordDensity * 100 + 30))%Q in
      (* Boost confidence if multiple keywords of the same mood are found *)
      let confidence :=
        if (1 <? List.length (matchedKeywords (snd topMood)))%nat
        then (confidence + 15)%Q else confidence in
      (* Check for competing moods and reduce confidence if they're close *)
      let confidence :=
        match others with
        | second :: _ =>
            if negb (Qle_bool (inject_Z (score (snd second))
                               / inject_Z (score (snd topMood))) (7 # 10))
            then (confidence - 20)%Q else confidence
        | [] => confidence
        end in
      {| result_mood := fst topMood;
         result_confidence := Math_round (Math_min 95 (Math_max 30 confidence));
         result_keywords := matchedKeywords (snd topMood) |}
  end.

End ClientMood.

(** ** The volume keypad of the audio player *)

Module Player.

Record VolumeState : Type := {
  isVolumeInputMode : bool;
  volumeInput : string;
  volume : Z
}.

Definition isDigit (c : ascii) : bool :=
  let n := nat_of_ascii c in ((48 <=? n) && (n <=? 57))%nat.

(** [/^\d$/.test(key)] *)
Definition isDigitKey (key : string) : bool :=
  match key with
  | String c EmptyString => isDigit c
  | _ => false
  end.

Fixpoint digitsOnly (s : string) : bool :=
  match s with
  | EmptyString => true
  | String c rest => isDigit c && digitsOnly rest
  end.

(** [parseInt(s, 10)] for a non-empty string of decimal digits. *)
Fixpoint parseDigits (s : string) (acc : Z) : Z :=
  match s with
  | EmptyString => acc
  | String c rest => parseDigits rest (10 * acc + Z.of_nat (nat_of_ascii c - 48))
  end.

Definition parseInt (s : string) : Z := parseDigits s 0.

Inductive Toast : Type := VolumeSet (v : Z) | InvalidVolume | VolumeInputMode.

(** The [keydown] handler, as a function of the state it was registered
    with: the state after its updates, and the toast it shows. *)
Definition handleKeyPress (st : VolumeState) (key : string) : VolumeState * option Toast :=
  if negb (isVolumeInputMode st) then (st, None)
  else if isDigitKey key then
    let newInput := (volumeInput st ++ key)%string in
    if (String.length newInput =? 2)%nat then
      let newVolume := parseInt newInput in
      if (1 <=? newVolume) && (newVolume <=? 100)
      then ({| isVolumeInputMode := false; volumeInput := ""; volume := newVolume |},
            Some (VolumeSet newVolume))
      else ({| isVolumeInputMode := false; volumeInput := ""; volume := volume st |},
            Some InvalidVolume)
    else
      ({| isVolumeInputMode := isVolumeInputMode st; volumeInput := newInput;
          volume := volume st |}, None)
  else if String.eqb key "Escape" then
    ({| isVolumeInputMode := false; volumeInput := ""; volume := volume st |}, None)
  else (st, None).

Definition handleVolumeButtonClick (st : VolumeState) : VolumeState * option Toast :=
  ({| isVolumeInputMode := true; volumeInput := ""; volume := volume st |},
   Some VolumeInputMode).

Inductive Event : Type := KeyDown (key : string) | VolumeButton.

Definition step (st : VolumeState) (e : Event) : VolumeState :=
  match e with
  | KeyDown key => fst (handleKeyPress st key)
  | VolumeButton => fst (handleVolumeButtonClick st)
  end.

(** The state of a new player: [useState(70)], not in input mode. *)
Definition initial : VolumeState :=
  {| isVolumeInputMode := false; volumeInput := ""; volume := 70 |}.

(** What the keypad keeps true of its state; [v0] is the volume before the
    keypad was used. *)
Definition keypadInvariant (v0 : Z) (st : VolumeState) : Prop :=
  (volume st = v0 \/ 1 <= volume st <= 99)
  /\ digitsOnly (volumeInput st) = true
  /\ (String.length (volumeInput st) <= 1)%nat
  /\ (isVolumeInputMode st = false -> volumeInput st = "").

End Player.

(** * Properties *)

Import Audio.

Section FrequencyTheory.
Local Open Scope R_scope.

Lemma Math_pow_2 (y : R) : Math_pow 2 y = Rpower 2 y.
Proof.
  unfold Math_pow. destruct (Req_dec_T 2 0) as [H | H]; [lra | reflexivity].
Qed.

Lemma indexOfFrom_absent (xs : list string) (note : string) (i : Z) :
  ~ In note xs -> indexOfFrom xs note i = (-1)%Z.
Proof.
  revert i. induction xs as [| y ys IH]; intros i Hn; simpl; [reflexivity |].
  destruct (String.eqb_spec y note) as [-> | Hne].
  - exfalso. apply Hn. now left.
  - apply IH. intro Hin. apply Hn. now right.
Qed.

Lemma indexOf_position (note : string) (i : nat) :
  nth_error noteMap i = Some note -> indexOf noteMap (Some note) = Z.of_nat i.
Proof.
  intros Hnth.
  do 12 (destruct i as [| i]; [injection Hnth as <-; reflexivity |]).
  destruct i; discriminate.
Qed.

Lemma Rpower_2_pos (y : R) : 0 < Rpower 2 y.
Proof. unfold Rpower. apply exp_pos. Qed.

(** C2. For the note at position [i] of the chromatic sequence and every
    octave, [getFrequency] is [440 * 2^((i - 9)/12 + (octave - 4))]; the
    closure inside [generateAudioFromMood] computes the same; the exponent
    written in the code equals the one of the formula; and A4 is 440. *)
Theorem getFrequency_equal_temperament (note : string) (octave : R) (i : nat) :
  nth_error noteMap i = Some note ->
  getFrequency (Some note) octave
    = 440 * Rpower 2 ((INR i - 9) / 12 + (octave - 4))
  /\ getFrequency_inner (Some note) octave = getFrequency (Some note) octave
  /\ (INR i - 9 + (octave - 4) * 12) / 12 = (INR i - 9) / 12 + (octave - 4)
  /\ getFrequency (Some "A"%string) 4 = 440.
Proof.
  intros Hnth. pose proof (indexOf_position note i Hnth) as Hidx.
  repeat split.
  - unfold getFrequency. fold noteMap. rewrite Hidx, Math_pow_2, <- INR_IZR_INZ.
    do 2 f_equal. field.
  - field.
  - unfold getFrequency. fold noteMap.
    rewrite (indexOf_position "A" 9 eq_refl), Math_pow_2.
    replace ((IZR (Z.of_nat 9) - 9 + (4 - 4) * 12) / 12) with 0
      by (simpl; field).
    rewrite Rpower_O; lra.
Qed.

Lemma getFrequency_equal_temperament_witness :
  getFrequency (Some "C"%string) 4 = 440 * Rpower 2 ((INR 0 - 9) / 12 + (4 - 4)).
Proof.
  exact (proj1 (getFrequency_equal_temperament "C" 4 0 eq_refl)).
Defined.

(** C3, the claim as stated fails: for the string "H", which is not a note
    name, the frequency operation returns a number. *)
Lemma frequency_unknown_note_returns :
  ~ In "H"%string noteMap
  /\ frequency "H" 4 <> Thrown ConfigurationError
  /\ frequency "H" 4 = Returned (440 * Rpower 2 (-10 / 12)).
Proof.
  split; [| split].
  - simpl. intuition discriminate.
  - discriminate.
  - unfold frequency, getFrequency. fold noteMap.
    unfold indexOf. rewrite indexOfFrom_absent by (simpl; intuition discriminate).
    rewrite Math_pow_2. do 3 f_equal. field.
Qed.

(** C3, amended. For every string that is not one of the twelve note
    names, the frequency operation does not fail: it returns the strictly
    positive number [440 * 2^((-1 - 9 + (octave - 4) * 12) / 12)], computed
    from the note index [-1]. *)
Theorem frequency_unknown_note (note : string) (octave : R) :
  ~ In note noteMap ->
  frequency note octave
    = Returned (440 * Rpower 2 ((-1 - 9 + (octave - 4) * 12) / 12))
  /\ 0 < 440 * Rpower 2 ((-1 - 9 + (octave - 4) * 12) / 12)
  /\ frequency note octave <> Thrown ConfigurationError.
Proof.
  intros Hn.
  assert (E : frequency note octave
              = Returned (440 * Rpower 2 ((-1 - 9 + (octave - 4) * 12) / 12))).
  { unfold frequency, getFrequency. fold noteMap. unfold indexOf.
    rewrite (indexOfFrom_absent _ _ _ Hn), Math_pow_2. reflexivity. }
  repeat split.
  - exact E.
  - pose proof (Rpower_2_pos ((-1 - 9 + (octave - 4) * 12) / 12)). lra.
  - rewrite E. discriminate.
Qed.

Lemma frequency_unknown_note_witness :
  frequency "H" 4 <> Thrown ConfigurationError.
Proof.
  refine (proj2 (proj2 (frequency_unknown_note "H" 4 _))).
  simpl. intuition discriminate.
Defined.

End FrequencyTheory.

Section Tables.

(** C4. The progression used by the render is [0,3,4,0] for a major scale
    and [0,2,5,0] for a minor one, it has four entries, and two parameter
    records with the same scale get the same progression, whatever their
    key, tempo and rhythm. *)
Theorem chord_progression_by_mode (p q : MusicParams) :
  (scale p = "major" -> getChordProgression (scale p) = [0; 3; 4; 0])
  /\ (scale p = "minor" -> getChordProgression (scale p) = [0; 2; 5; 0])
  /\ List.length (getChordProgression (scale p)) = 4%nat
  /\ (scale p = scale q ->
      getChordProgression (scale p) = getChordProgression (scale q)).
Proof.
  repeat split.
  - intros ->. reflexivity.
  - intros ->. reflexivity.
  - unfold getChordProgression. destruct (scale p =? "minor")%string; reflexivity.
  - intros ->. reflexivity.
Qed.

Lemma chord_progression_by_mode_witness :
  getChordProgression "minor" = [0; 2; 5; 0].
Proof.
  exact (proj1 (proj2 (chord_progression_by_mode
                         {| tempo := 60; key := "D"; scale := "minor"; rhythm := "slow" |}
                         {| tempo := 100; key := "G"; scale := "minor"; rhythm := "irregular" |}))
               eq_refl).
Defined.

Lemma NoDup_of_nodup (l : list string) :
  nodup string_dec l = l -> NoDup l.
Proof. intros <-. apply NoDup_nodup. Qed.

Lemma sevenDistinctNotes_compute (names : list string) :
  List.length names = 7%nat ->
  nodup string_dec names = names ->
  forallb (fun n => existsb (String.eqb n) noteMap) names = true ->
  sevenDistinctNotes (map Some names).
Proof.
  intros Hlen Hnd Hall. exists names. repeat split; auto using NoDup_of_nodup.
  intros n Hin. rewrite forallb_forall in Hall. specialize (Hall n Hin).
  apply existsb_exists in Hall as (m & Hm & Heq).
  apply String.eqb_eq in Heq. now subst.
Qed.

Lemma scaleFrom_distinct (k : Z) (mode : string) (intervals : list Z) :
  0 <= k < 12 -> scales mode = Some intervals ->
  sevenDistinctNotes (scaleFrom k intervals).
Proof.
  intros Hk Hmode.
  assert (Hi : intervals = [0; 2; 4; 5; 7; 9; 11] \/ intervals = [0; 2; 3; 5; 7; 8; 10]).
  { unfold scales in Hmode.
    destruct (mode =? "major")%string; [left; congruence |].
    destruct (mode =? "minor")%string; [right; congruence | discriminate]. }
  assert (Hcases : k = 0 \/ k = 1 \/ k = 2 \/ k = 3 \/ k = 4 \/ k = 5 \/ k = 6
                   \/ k = 7 \/ k = 8 \/ k = 9 \/ k = 10 \/ k = 11) by lia.
  destruct Hi as [-> | ->];
    repeat (destruct Hcases as [-> | Hcases]); try subst k;
    match goal with
    | |- sevenDistinctNotes ?l =>
        let l' := eval vm_compute in l in
        change l with l'
    end;
    match goal with
    | |- sevenDistinctNotes [Some ?a; Some ?b; Some ?c; Some ?d; Some ?e; Some ?f; Some ?g] =>
        apply (sevenDistinctNotes_compute [a; b; c; d; e; f; g]); vm_compute; reflexivity
    end.
Qed.

(** C5. For every root among the twelve note names and each of the two
    modes, [scaleNotes] is an array of exactly seven pairwise distinct note
    names; and so is the scale built from any chromatic index [0..11] with
    the interval pattern of the mode. *)
Theorem scaleNotes_seven_distinct (root mode : string) :
  In root noteMap ->
  mode = "major" \/ mode = "minor" ->
  (exists notes, scaleNotes root mode = Some notes /\ sevenDistinctNotes notes)
  /\ (forall k intervals, 0 <= k < 12 -> scales mode = Some intervals ->
      sevenDistinctNotes (scaleFrom k intervals)).
Proof.
  intros Hroot Hmode. split.
  - assert (Hk : 0 <= keyIndex root < 12).
    { simpl in Hroot.
      repeat (destruct Hroot as [<- | Hroot]; [vm_compute; split; congruence |]).
      contradiction. }
    unfold scaleNotes.
    destruct (scales mode) as [intervals |] eqn:Hs.
    + exists (scaleFrom (keyIndex root) intervals). split; [reflexivity |].
      now apply scaleFrom_distinct with mode.
    + destruct Hmode as [-> | ->]; discriminate.
  - intros k intervals. apply scaleFrom_distinct.
Qed.

Lemma scaleNotes_seven_distinct_witness :
  exists notes, scaleNotes "F#" "minor" = Some notes /\ sevenDistinctNotes notes.
Proof.
  refine (proj1 (scaleNotes_seven_distinct "F#" "minor" _ _)).
  - simpl. tauto.
  - right. reflexivity.
Defined.

Lemma ownProperty_absent {A : Type} (o : list (string * A)) (name : string) :
  ~ In name (map fst o) -> ownProperty o name = None.
Proof.
  induction o as [| [k v] rest IH]; simpl; intros Hn; [reflexivity |].
  destruct (String.eqb_spec k name) as [-> | Hne].
  - exfalso. apply Hn. now left.
  - apply IH. intro Hin. apply Hn. now right.
Qed.

Lemma existsb_eqb_absent (name : string) (l : list string) :
  ~ In name l -> existsb (String.eqb name) l = false.
Proof.
  intros Hn. destruct (existsb (String.eqb name) l) eqn:E; [| reflexivity].
  apply existsb_exists in E as (m & Hm & Heq).
  apply String.eqb_eq in Heq. subst. contradiction.
Qed.

(** The ten entries of the profile table. *)
Lemma getMoodVibe_table (tempo : R) (scale : string) :
  getMoodVibe "upbeat" tempo scale
    = Some (Own (mkVibe "bouncy" "dancing" "bright" ["sparkle"; "bounce"] 4))
  /\ getMoodVibe "slow" tempo scale
    = Some (Own (mkVibe "melancholic" "sorrowful" "emotional" ["reverb"; "tears"] 1))
  /\ getMoodVibe "driving" tempo scale
    = Some (Own (mkVibe "pounding" "soaring" "powerful" ["distortion"; "pulse"] 8))
  /\ getMoodVibe "flowing" tempo scale
    = Some (Own (mkVibe "gentle" "floating" "peaceful" ["wave"; "breath"] 2))
  /\ getMoodVibe "irregular" tempo scale
    = Some (Own (mkVibe "restless" "uncertain" "unsettled" ["flutter"; "hesitate"] 5))
  /\ getMoodVibe "gentle" tempo scale
    = Some (Own (mkVibe "soft" "lullaby" "warm" ["whisper"; "glow"] 1))
  /\ getMoodVibe "energetic" tempo scale
    = Some (Own (mkVibe "jumping" "celebrating" "vibrant" ["burst"; "fizz"] 6))
  /\ getMoodVibe "contemplative" tempo scale
    = Some (Own (mkVibe "hollow" "longing" "nostalgic" ["drift"; "memory"] 1))
  /\ getMoodVibe "steady" tempo scale
    = Some (Own (mkVibe "solid" "precise" "clear" ["focus"; "sharp"] 2))
  /\ getMoodVibe "romantic" tempo scale
    = Some (Own (mkVibe "warm" "tender" "intimate" ["caress"; "velvet"] 3)).
Proof. repeat split. Qed.

(** A rhythm that is neither one of the ten identifiers nor the name of a
    member of [Object.prototype] gets the profile of 'flowing'. *)
Lemma getMoodVibe_fallback (rhythm : string) (tempo : R) (scale : string) :
  ~ In rhythm rhythmIdentifiers ->
  ~ In rhythm objectPrototypeMembers ->
  getMoodVibe rhythm tempo scale
    = Some (Own (mkVibe "gentle" "floating" "peaceful" ["wave"; "breath"] 2)).
Proof.
  intros Hid Hproto. unfold getMoodVibe, propertyOr, property at 1.
  rewrite (ownProperty_absent vibes rhythm Hid).
  rewrite (existsb_eqb_absent rhythm _ Hproto). reflexivity.
Qed.

(** C6, where the code departs from the claim. The string "constructor"
    is not one of the ten rhythm identifiers, and [getMoodVibe] does not
    return the profile of 'flowing' for it: the lookup in [vibes] finds the
    member that every object inherits from [Object.prototype], which is
    truthy, so the fallback is not taken.  The render of such parameters
    then throws a [TypeError] instead of producing a buffer. *)
Theorem getMoodVibe_inherited_member (tempo : R) (scale : string) :
  ~ In "constructor" rhythmIdentifiers
  /\ getMoodVibe "constructor" tempo scale = Some (Inherited "constructor")
  /\ getMoodVibe "constructor" tempo scale <> getMoodVibe "flowing" tempo scale
  /\ forall (o : oracle),
      generateAudioFromMood
        {| tempo := 120; key := "C"; scale := "major"; rhythm := "constructor" |}
        44100 o = Thrown TypeError.
Proof.
  repeat split.
  - simpl. intuition discriminate.
  - discriminate.
Qed.

End Tables.

(** ** Case analysis on the [switch] statements *)

Ltac string_cases :=
  repeat match goal with
         | |- context [String.eqb ?a ?b] =>
             destruct (String.eqb_spec a b); subst; try congruence
         end.

Ltac bool_cases :=
  repeat match goal with
         | |- context [if ?c then _ else _] => destruct c
         end.


(** ** The bass layer *)

Section BassPitch.
Local Open Scope R_scope.

(** C7, amended. Whatever the waveform primitive is, the bass sample is an
    amplitude, which does not depend on the primitive, times the value of the
    primitive at one frequency and at the current time (plus the noise term
    of 'pounding').
    - For every style other than 'melancholic', 'restless' and 'hollow' (so
      for 'bouncy', 'pounding', 'gentle', 'soft', 'jumping', 'solid', 'warm'
      and for an unlisted style) that frequency is exactly [rootFreq * 0.5],
      and the amplitude is not zero, except for 'soft', whose amplitude is
      [0.2 sin(0.3 t + pi/4)]: the sample really depends on the primitive at
      half the chord root.
    - 'melancholic' calls it at [rootFreq * 0.5 * (1 + 0.1 sin(0.3 t))],
      'restless' at [rootFreq * 0.5 * (1 + 0.4 sin(1.5 t))], both with a
      positive amplitude, and 'hollow' at [rootFreq * 0.5 * 0.7], with an
      amplitude that is positive after time 0.
    - In every style, two primitives that agree at that one frequency
      ([bassPitch]) give the same bass sample. *)
Theorem generateBass_oscillator_frequency
        (bassType : string) (rootFreq time beat : R) (complexity : Z)
        (o : oracle) (n : nat) :
  (bassType <> "melancholic" -> bassType <> "restless" -> bassType <> "hollow" ->
   exists (amp noise : R) (shape : Waveform) (n' : nat),
     (forall wave : R -> R -> Waveform -> R,
         generateBassWith wave bassType rootFreq time beat complexity o n
         = (amp * (wave (rootFreq * 0.5) time shape + noise), n'))
     /\ (bassType <> "soft" -> amp <> 0)
     /\ (bassType = "soft" -> amp = 0.2 * sin (time * 0.3 + PI / 4)))
  /\ (forall wave : R -> R -> Waveform -> R,
         generateBassWith wave "melancholic" rootFreq time beat complexity o n
         = (0.45 * (0.4 + 0.3 * sin (time * 0.2))
            * wave (rootFreq * 0.5 * (1 + 0.1 * sin (time * 0.3))) time sine, n))
  /\ 0 < 0.45 * (0.4 + 0.3 * sin (time * 0.2))
  /\ (forall wave : R -> R -> Waveform -> R,
         generateBassWith wave "restless" rootFreq time beat complexity o n
         = ((0.35 + 0.15 * Rabs (sin (time * 2.3)))
            * wave (rootFreq * 0.5 * (1 + 0.4 * sin (time * 1.5))) time triangle, n))
  /\ 0 < 0.35 + 0.15 * Rabs (sin (time * 2.3))
  /\ (forall wave : R -> R -> Waveform -> R,
         generateBassWith wave "hollow" rootFreq time beat complexity o n
         = (0.3 * (1 - exp (- time * 0.1))
            * wave (rootFreq * 0.5 * 0.7) time triangle, n))
  /\ (0 < time -> 0 < 0.3 * (1 - exp (- time * 0.1)))
  /\ (forall wave1 wave2 : R -> R -> Waveform -> R,
         (forall shape, wave1 (bassPitch bassType rootFreq time) time shape
                        = wave2 (bassPitch bassType rootFreq time) time shape) ->
         generateBassWith wave1 bassType rootFreq time beat complexity o n
         = generateBassWith wave2 bassType rootFreq time beat complexity o n).
Proof.
  pose proof (SIN_bound (time * 0.2)) as Hs1.
  pose proof (SIN_bound (time * 0.5)) as Hs2.
  pose proof (SIN_bound (time * 0.8)) as Hs3.
  pose proof (Rabs_pos (sin (time * 2.3))) as Ha.
  split; [| split; [| split; [| split; [| split; [| split; [| split]]]]]].
  - intros Hm Hr Hh. unfold generateBassWith, generateNoise, bind, Math_random, ret.
    string_cases.
    + (* bouncy *)
      exists (0.4 * (if gt (sin (beat * PI * 2)) 0 then 1 else 0.3)), 0, triangle, n.
      split; [intros wave; f_equal; ring |]. split; [| discriminate].
      intros _. destruct (gt _ _); lra.
    + (* pounding *)
      exists (0.6 * (if (complexity =? 0)%Z then 0.1
                     else if (Z.rem (Math_floor (beat * IZR complexity)) complexity <? 2)%Z
                          then 1 else 0.1)),
        (0.3 * ((o n * 2 - 1) * exp (- time * 10))), sawtooth, (S n).
      split; [intros wave; reflexivity |]. split; [| discriminate].
      intros _. destruct (complexity =? 0)%Z; [lra |]. destruct (_ <? _)%Z; lra.
    + (* gentle *)
      exists (0.25 * (1 + 0.3 * sin (time * 0.5))), 0, sine, n.
      split; [intros wave; f_equal; ring |]. split; [| discriminate].
      intros _. nra.
    + (* soft *)
      exists (0.2 * sin (time * 0.3 + PI / 4)), 0, sine, n.
      split; [intros wave; f_equal; ring |]. split; [congruence | reflexivity].
    + (* jumping *)
      exists (0.45 * (if gt (sin (beat * PI * 4)) 0.5 then 1 else 0.2)), 0, triangle, n.
      split; [intros wave; f_equal; ring |]. split; [| discriminate].
      intros _. destruct (gt _ _); lra.
    + (* solid *)
      exists 0.35, 0, sawtooth, n.
      split; [intros wave; f_equal; ring |]. split; [| discriminate].
      intros _. lra.
    + (* warm *)
      exists (0.3 * (1 + 0.2 * sin (time * 0.8))), 0, sine, n.
      split; [intros wave; f_equal; ring |]. split; [| discriminate].
      intros _. nra.
    + (* an unlisted style *)
      exists 0.3, 0, sawtooth, n.
      split; [intros wave; f_equal; ring |]. split; [| congruence].
      intros _. lra.
  - intros wave. unfold generateBassWith, ret. string_cases.
  - nra.
  - intros wave. unfold generateBassWith, ret. string_cases.
  - nra.
  - intros wave. unfold generateBassWith, ret. string_cases.
  - intros Ht. assert (exp (- time * 0.1) < 1).
    { rewrite <- exp_0. apply exp_increasing. lra. }
    lra.
  - intros wave1 wave2 Hw. revert Hw. unfold generateBassWith, bassPitch, bind, ret.
    string_cases; intros Hw; cbn; rewrite ?Hw; reflexivity.
Qed.

Lemma generateBass_oscillator_frequency_witness :
  exists (amp noise : R) (shape : Waveform) (n' : nat),
    (forall wave : R -> R -> Waveform -> R,
        generateBassWith wave "solid" 220 1 0 2 (fun _ => 0) 0%nat
        = (amp * (wave (220 * 0.5) 1 shape + noise), n'))
    /\ amp <> 0.
Proof.
  destruct (proj1 (generateBass_oscillator_frequency "solid" 220 1 0 2 (fun _ => 0) 0%nat))
    as (amp & noise & shape & n' & Heq & Hamp & _).
  - discriminate.
  - discriminate.
  - discriminate.
  - exists amp, noise, shape, n'. split; [exact Heq | apply Hamp; discriminate].
Defined.

Lemma exp_neg_lt_1 (x : R) : 0 < x -> exp (- x) < 1.
Proof. intros Hx. rewrite <- exp_0. apply exp_increasing. lra. Qed.

(** C7, the claim as stated fails: 'hollow' is one of the ten bass styles,
    and its sample depends on the waveform primitive away from half the chord
    root.  With a root of 2 (half of it is 1), a primitive that returns its
    frequency argument and one that is constantly 1 agree at frequency 1 and
    yet give different bass samples: the primitive is called at 0.7. *)
Lemma generateBass_hollow_off_half_root :
  In "hollow" bassStyles
  /\ exists wave1 wave2 : R -> R -> Waveform -> R,
      (forall time shape, wave1 (2 * 0.5) time shape = wave2 (2 * 0.5) time shape)
      /\ fst (generateBassWith wave1 "hollow" 2 1 0 1 (fun _ => 0) 0%nat)
         <> fst (generateBassWith wave2 "hollow" 2 1 0 1 (fun _ => 0) 0%nat).
Proof.
  split; [simpl; tauto |].
  exists (fun f _ _ => f), (fun _ _ _ => 1). split.
  - intros _ _. lra.
  - unfold generateBassWith, ret. string_cases. cbn [fst].
    pose proof (exp_neg_lt_1 (1 * 0.1)). 
    replace (-(1) * 0.1) with (- (1 * 0.1)) by lra. nra.
Qed.

End BassPitch.

(** ** The render loop *)

Section Render.
Local Open Scope R_scope.

Lemma tanh_bound (x : R) : -1 < tanh x < 1.
Proof.
  unfold tanh, sinh, cosh.
  pose proof (exp_pos x) as Ha. pose proof (exp_pos (- x)) as Hb.
  set (a := exp x) in *. set (b := exp (- x)) in *.
  assert (Hd : 0 < (a + b) / 2) by lra.
  split.
  - apply Rmult_lt_reg_r with ((a + b) / 2); [exact Hd |].
    unfold Rdiv at 2. rewrite Rmult_assoc, Rinv_l by lra. lra.
  - apply Rmult_lt_reg_r with ((a + b) / 2); [exact Hd |].
    unfold Rdiv at 1. rewrite Rmult_assoc, Rinv_l by lra. lra.
Qed.

Lemma compress_bound (x : R) : Rabs (tanh (x * 0.8) * 0.9) <= 0.9.
Proof.
  pose proof (tanh_bound (x * 0.8)). apply Rabs_le. lra.
Qed.

Lemma set_length {A} (l : list A) i v : length (set l i v) = length l.
Proof. revert i; induction l; intros [|i]; simpl; auto. Qed.

Lemma set_Forall {A} (P : A -> Prop) (l : list A) i v : Forall P l -> P v -> Forall P (set l i v).
Proof. intros Hl Hv. revert i. induction Hl; intros [|i]; simpl; auto. Qed.

Lemma set_map {A B} (f : A -> B) (l : list A) i v : map f (set l i v) = set (map f l) i (f v).
Proof. revert i; induction l; intros [|i]; simpl; f_equal; auto. Qed.

Lemma renderLoop_invariant (P : R -> Prop) (body : nat -> Rand R) :
  (forall i o n, P (fst (body i o n))) ->
  forall remaining i left right o n,
    Forall P left -> right = map (fun x => x * 0.95) left ->
    let result := fst (renderLoop body remaining i left right o n) in
    length (fst result) = length left
    /\ Forall P (fst result)
    /\ snd result = map (fun x => x * 0.95) (fst result).
Proof.
  intros Hbody remaining. induction remaining as [| r IH]; intros i left right o n Hl Hr; simpl.
  - auto.
  - unfold bind. specialize (Hbody i o n). destruct (body i o n) as [sample n']. simpl in Hbody.
    specialize (IH (S i) (set left i sample) (set right i (sample * 0.95)) o n').
    simpl in IH. rewrite set_length in IH. apply IH.
    + now apply set_Forall.
    + subst right. now rewrite set_map.
Qed.

Lemma renderSample_compressed p sr notes prog vibe i o n :
  exists x, fst (renderSample p sr notes prog vibe i o n) = tanh (x * 0.8) * 0.9.
Proof.
  unfold renderSample, bind, ret.
  destruct (generateBass _ _ _ _ _ o n) as [bass n1].
  destruct (applyMoodEffects _ _ _ _ _ o n1) as [s n2].
  simpl. eexists. reflexivity.
Qed.

Lemma getMoodVibe_own (rhythm : string) (tempo : R) (scale : string) :
  In rhythm rhythmIdentifiers ->
  exists v, getMoodVibe rhythm tempo scale = Some (Own v) /\ In (rhythm, v) vibes.
Proof.
  intros Hin. simpl in Hin.
  repeat (destruct Hin as [<- | Hin]; [eexists; split; [reflexivity | simpl; tauto] |]).
  contradiction.
Qed.

Lemma Forall_repeat {A} (P : A -> Prop) (x : A) (n : nat) : P x -> Forall P (repeat x n).
Proof. intros Hx. induction n; simpl; auto. Qed.

(** C1. For every rhythm among the ten identifiers, every key that starts
    with a note letter, both scales and every positive tempo, the render
    returns (it does not throw, and the loop is a structural recursion on the
    number of samples) a buffer of two channels, each of length
    [sampleRate * 30], whose samples all lie in [[-1, 1]]; the left ones are
    bounded by 0.9 in magnitude and the right channel is the left one times
    0.95. *)
Theorem generateAudioFromMood_bounded (p : MusicParams) (sr : nat) (o : oracle) :
  In (rhythm p) rhythmIdentifiers ->
  In (charAt0 (key p)) noteMap ->
  scale p = "major" \/ scale p = "minor" ->
  0 < tempo p ->
  exists left right : list R,
    generateAudioFromMood p sr o
      = Returned {| sampleRate := sr; channelData := [left; right] |}
    /\ length left = (sr * 30)%nat
    /\ length right = (sr * 30)%nat
    /\ Forall (fun x => -1 <= x <= 1) left
    /\ Forall (fun x => -1 <= x <= 1) right
    /\ Forall (fun x => Rabs x <= 0.9) left
    /\ right = map (fun x => x * 0.95) left.
Proof.
  intros Hrhythm _ Hscale _.
  unfold generateAudioFromMood.
  assert (Hs : exists notes, scaleNotes (key p) (scale p) = Some notes).
  { unfold scaleNotes. destruct Hscale as [-> | ->]; eexists; reflexivity. }
  destruct Hs as [notes ->].
  destruct (getMoodVibe_own _ (tempo p) (scale p) Hrhythm) as (v & -> & _).
  set (n := (sr * Z.to_nat duration)%nat).
  assert (Hn : n = (sr * 30)%nat) by reflexivity.
  pose proof (renderLoop_invariant (fun x => Rabs x <= 0.9)
                (renderSample p sr notes (getChordProgression (scale p)) v)) as Hinv.
  specialize (Hinv (fun i o n =>
     match renderSample_compressed p sr notes (getChordProgression (scale p)) v i o n with
     | ex_intro _ x E => eq_ind_r (fun y => Rabs y <= 0.9) (compress_bound x) E
     end)).
  specialize (Hinv n 0%nat (getChannelData (createBuffer 2 n sr) 0)
                (getChannelData (createBuffer 2 n sr) 1) o 0%nat).
  simpl in Hinv.
  destruct (renderLoop _ n 0%nat _ _ o 0%nat) as [[left right] k].
  simpl in Hinv.
  destruct Hinv as (Hlen & Hall & Hright).
  - apply (Forall_repeat (fun x => Rabs x <= 0.9)). rewrite Rabs_R0. lra.
  - change (repeat 0 n = map (fun x => x * 0.95) (repeat 0 n)).
    rewrite map_repeat. f_equal. lra.
  - change (length left = length (repeat 0 n)) in Hlen. rewrite repeat_length in Hlen.
    clearbody n. subst n.
    exists left, right. simpl. repeat split; auto.
    + subst right. now rewrite length_map.
    + revert Hall. apply Forall_impl. intros x Hx. unfold Rabs in Hx. destruct (Rcase_abs x); lra.
    + subst right. apply Forall_map. revert Hall. apply Forall_impl.
      intros x Hx. unfold Rabs in Hx. destruct (Rcase_abs x); lra.
Qed.

Lemma generateAudioFromMood_bounded_witness :
  exists left right : list R,
    generateAudioFromMood
      {| tempo := 120; key := "C"; scale := "major"; rhythm := "upbeat" |}
      44100 (fun _ => 0)
      = Returned {| sampleRate := 44100; channelData := [left; right] |}
    /\ length left = (44100 * 30)%nat
    /\ length right = (44100 * 30)%nat
    /\ Forall (fun x => -1 <= x <= 1) left
    /\ Forall (fun x => -1 <= x <= 1) right
    /\ Forall (fun x => Rabs x <= 0.9) left
    /\ right = map (fun x => x * 0.95) left.
Proof.
  apply (generateAudioFromMood_bounded
           {| tempo := 120; key := "C"; scale := "major"; rhythm := "upbeat" |}
           44100 (fun _ => 0)).
  - simpl. tauto.
  - simpl. tauto.
  - left. reflexivity.
  - simpl. lra.
Defined.

Lemma drawFree_ret {A} (a : A) : drawFree (ret a).
Proof. exists a. reflexivity. Qed.

Lemma drawFree_bind {A B} (m : Rand A) (k : A -> Rand B) :
  drawFree m -> (forall a, drawFree (k a)) -> drawFree (bind m k).
Proof.
  intros [a Ha] Hk. destruct (Hk a) as [b Hb]. exists b. intros o n.
  unfold bind. rewrite Ha. apply Hb.
Qed.

Lemma generateBassWith_drawFree wave bassType rootFreq time beat complexity :
  bassType <> "pounding" ->
  drawFree (generateBassWith wave bassType rootFreq time beat complexity).
Proof.
  intros Hp. unfold generateBassWith.
  string_cases; try contradiction; apply drawFree_ret.
Qed.

Lemma applyEffect_drawFree sample time rootFreq tempo processed effect :
  effect <> "fizz" ->
  drawFree (applyEffect sample time rootFreq tempo processed effect).
Proof.
  intros Hf. unfold applyEffect.
  string_cases; try contradiction; bool_cases; apply drawFree_ret.
Qed.

Lemma applyEffects_drawFree sample time rootFreq tempo effects processed :
  ~ In "fizz" effects ->
  drawFree (applyEffects sample time rootFreq tempo effects processed).
Proof.
  revert processed. induction effects as [| e rest IH]; intros processed Hf; simpl.
  - apply drawFree_ret.
  - apply drawFree_bind.
    + apply applyEffect_drawFree. intros ->. apply Hf. now left.
    + intros a. apply IH. intro Hin. apply Hf. now right.
Qed.

Lemma renderSample_drawFree p sr notes prog vibe i :
  bassType vibe <> "pounding" -> ~ In "fizz" (effects vibe) ->
  drawFree (renderSample p sr notes prog vibe i).
Proof.
  intros Hb Hf. unfold renderSample.
  apply drawFree_bind; [now apply generateBassWith_drawFree |].
  intros bass. apply drawFree_bind; [now apply applyEffects_drawFree |].
  intros s. apply drawFree_ret.
Qed.

Lemma renderLoop_drawFree body remaining i left right :
  (forall j, drawFree (body j)) ->
  drawFree (renderLoop body remaining i left right).
Proof.
  intros Hbody. revert i left right.
  induction remaining as [| r IH]; intros i left right; simpl.
  - apply drawFree_ret.
  - apply drawFree_bind; [apply Hbody |]. intros s. apply IH.
Qed.

Lemma noise_free_profile rhythm tempo scale v :
  getMoodVibe rhythm tempo scale = Some (Own v) ->
  rhythm <> "driving" -> rhythm <> "energetic" ->
  bassType v <> "pounding" /\ ~ In "fizz" (effects v).
Proof.
  unfold getMoodVibe, propertyOr, property, vibes. cbn [ownProperty].
  intros H Hd He. revert H.
  string_cases; bool_cases; intros H; try discriminate;
    injection H as <-; (split; [discriminate | simpl; intuition discriminate]).
Qed.

(** C8. When the rhythm is neither 'driving' nor 'energetic', the outcome of
    the render does not depend on the draws of [Math.random]: two calls with
    the same parameters and sample rate give the same buffer (or the same
    exception) whatever the two streams of draws are. *)
Theorem generateAudioFromMood_deterministic (p : MusicParams) (sr : nat) (o1 o2 : oracle) :
  rhythm p <> "driving" -> rhythm p <> "energetic" ->
  generateAudioFromMood p sr o1 = generateAudioFromMood p sr o2.
Proof.
  intros Hd He. unfold generateAudioFromMood.
  destruct (scaleNotes (key p) (scale p)) as [notes |]; [| reflexivity].
  destruct (getMoodVibe (rhythm p) (tempo p) (scale p)) as [[v | name] |] eqn:Hv;
    try reflexivity.
  destruct (noise_free_profile _ _ _ _ Hv Hd He) as [Hb Hf].
  match goal with
  | |- context [renderLoop ?body ?n ?i ?l ?r] =>
      destruct (renderLoop_drawFree body n i l r) as [res Hres]
  end.
  - intros j. now apply renderSample_drawFree.
  - now rewrite !Hres.
Qed.

Lemma generateAudioFromMood_deterministic_witness :
  generateAudioFromMood
    {| tempo := 60; key := "D"; scale := "minor"; rhythm := "slow" |} 44100 (fun _ => 0)
  = generateAudioFromMood
      {| tempo := 60; key := "D"; scale := "minor"; rhythm := "slow" |} 44100 (fun _ => 1).
Proof.
  apply (generateAudioFromMood_deterministic
           {| tempo := 60; key := "D"; scale := "minor"; rhythm := "slow" |}
           44100 (fun _ => 0) (fun _ => 1)).
  - simpl. discriminate.
  - simpl. discriminate.
Defined.

End Render.

(** ** The server *)

Module ServerProperties.
Import Server.

Lemma countMatchesFrom_none (keyword text : string) :
  includes text keyword = false -> forall skip, countMatchesFrom keyword text skip = 0.
Proof.
  induction text as [| c rest IH]; intros Hinc skip; [reflexivity |].
  cbn [includes] in Hinc. apply orb_false_elim in Hinc as [Hpre Hrest].
  cbn [countMatchesFrom]. destruct skip as [| k].
  - rewrite Hpre. now apply IH.
  - now apply IH.
Qed.

Lemma score_none (text : string) (keywords : list string) (acc : Z) :
  forallb (fun keyword => negb (includes text keyword)) keywords = true ->
  fold_left (fun score keyword => score + countMatches text keyword) keywords acc = acc.
Proof.
  revert acc. induction keywords as [| k rest IH]; intros acc H; [reflexivity |].
  cbn [forallb] in H. apply andb_prop in H as [Hk Hrest].
  cbn [fold_left]. unfold countMatches at 2.
  rewrite countMatchesFrom_none by now apply negb_true_iff.
  rewrite Z.add_0_r. now apply IH.
Qed.

Lemma fold_left_choice {A} (f : A -> A -> A) :
  (forall a b, f a b = a \/ f a b = b) ->
  forall l x, In (fold_left f l x) (x :: l).
Proof.
  intros Hf. induction l as [| y l IH]; intros x; cbn [fold_left].
  - now left.
  - destruct (IH (f x y)) as [H | H].
    + rewrite <- H. destruct (Hf x y) as [-> | ->]; simpl; auto.
    + right. now right.
Qed.

Lemma Math_min_max_range (x : Q) :
  (30 <= Math_min 95 (Math_max 30 x) <= 95)%Q.
Proof.
  unfold Math_min, Math_max.
  destruct (Qle_bool 30 x) eqn:E1.
  - apply Qle_bool_iff in E1.
    destruct (Qle_bool 95 x) eqn:E2.
    + split; [discriminate | apply Qle_refl].
    + split; [exact E1 |].
      apply Qnot_lt_le. intro H. apply Qlt_le_weak in H. apply Qle_bool_iff in H. congruence.
  - change (Qle_bool 95 30) with false. cbv iota. split; [apply Qle_refl | discriminate].
Qed.

Lemma Math_round_range (x : Q) :
  (30 <= x <= 95)%Q -> 30 <= Math_round x <= 95.
Proof.
  intros [Hlo Hhi]. unfold Math_round. split.
  - change 30 with (Qfloor (30 + (1 # 2))). apply Qfloor_resp_le.
    apply Qplus_le_compat; [exact Hlo | apply Qle_refl].
  - change 95 with (Qfloor (95 + (1 # 2))). apply Qfloor_resp_le.
    apply Qplus_le_compat; [exact Hhi | apply Qle_refl].
Qed.

(** C9. For every text, the mood analysis of the server returns; the mood is
    one of the ten mood identifiers, it is 'calm' when no keyword of any mood
    occurs in the lower-cased text, and the confidence is an integer between
    30 and 95. *)
Theorem analyzeMoodFromText_range (text : string) :
  exists r : MoodAnalysis,
    analyzeMoodFromText text = Returned r
    /\ In (mood r) MOODS
    /\ 30 <= confidence r <= 95
    /\ (noKeywordOccurs text = true -> mood r = "calm").
Proof.
  unfold analyzeMoodFromText.
  set (lowerText := toLowerCase text).
  set (score := fun keywords : list string =>
                  fold_left (fun score keyword => score + countMatches lowerText keyword)
                            keywords 0).
  set (scores := map _ moodKeywords).
  assert (Hscores : scores = map (fun e => (fst e, score (snd e))) moodKeywords) by reflexivity.
  set (pick := fun a b : string * Z => if scoreGt scores (fst a) (fst b) then a else b).
  assert (Hpick : forall a b, pick a b = a \/ pick a b = b).
  { intros a b. unfold pick. destruct (scoreGt _ _ _); auto. }
  destruct scores as [| first rest] eqn:Es; [discriminate |].
  cbn [reduce].
  pose proof (fold_left_choice pick Hpick rest first) as Hin.
  set (topMood := fold_left pick rest first) in *.
  eexists. split; [reflexivity |]. cbn [mood confidence].
  rewrite Hscores in Hin.
  apply in_map_iff in Hin as (entry & Htop & Hentry).
  split; [| split].
  - destruct (snd topMood >? 0); [| simpl; tauto].
    rewrite <- Htop. cbn [fst].
    apply (in_map fst) in Hentry. exact Hentry.
  - apply Math_round_range, Math_min_max_range.
  - intros Hnone. unfold noKeywordOccurs in Hnone. rewrite forallb_forall in Hnone.
    specialize (Hnone entry Hentry). fold lowerText in Hnone.
    rewrite <- Htop. cbn [snd]. unfold score. rewrite score_none by exact Hnone.
    reflexivity.
Qed.

Lemma analyzeMoodFromText_range_witness :
  exists r, analyzeMoodFromText "What a day" = Returned r /\ mood r = "calm".
Proof.
  destruct (analyzeMoodFromText_range "What a day") as (r & E & _ & _ & Hcalm).
  exists r. split; [exact E | apply Hcalm; vm_compute; reflexivity].
Defined.

Lemma randomDuration_range (r : Q) :
  (0 <= r)%Q -> (r < 1)%Q -> 30 <= randomDuration r <= 59.
Proof.
  intros H0 H1. unfold randomDuration.
  assert (Hlo : 0 <= Qfloor (r * 30)).
  { change 0 with (Qfloor 0). apply Qfloor_resp_le.
    rewrite <- (Qmult_0_l 30). apply Qmult_le_compat_r; [exact H0 | discriminate]. }
  assert (Hhi : Qfloor (r * 30) < 30).
  { rewrite Zlt_Qlt. apply Qle_lt_trans with (r * 30)%Q; [apply Qfloor_le |].
    change (inject_Z 30) with (1 * 30)%Q. apply Qmult_lt_compat_r; [reflexivity | exact H1]. }
  lia.
Qed.

(** C10. On the successful path of the generate-music route, with a draw of
    [[0, 1)], the duration returned is the one stored with the track, it is
    the integer [randomDuration] of the draw and lies between 30 and 60; and
    some draw gives a duration different from the 30 seconds of the buffer
    that the client renders. *)
Theorem generated_track_duration (mood : string) (o : draws) (n : nat) (st : Storage) :
  (0 <= o (S n))%Q -> (o (S n) < 1)%Q ->
  let res := fst (fst (generateMusic mood o n st)) in
  let st' := snd (fst (generateMusic mood o n st)) in
  30 <= res_duration res <= 60
  /\ res_duration res = randomDuration (o (S n))
  /\ (exists track, musicTracks st' = (musicTracks st ++ [track])%list
                    /\ duration track = res_duration res)
  /\ (exists o' : draws,
         (0 <= o' (S n))%Q /\ (o' (S n) < 1)%Q
         /\ res_duration (fst (fst (generateMusic mood o' n st))) <> Audio.duration).
Proof.
  intros H0 H1. cbn. pose proof (randomDuration_range _ H0 H1) as Hr.
  repeat split; try lia.
  - eexists. split; reflexivity.
  - exists (fun _ => 1 # 2)%Q. repeat split; discriminate.
Qed.

Lemma generated_track_duration_witness :
  30 <= res_duration (fst (fst (generateMusic "happy" (fun _ => (1 # 2)%Q) 0
                                               {| musicTracks := [] |}))) <= 60.
Proof.
  refine (proj1 (generated_track_duration "happy" (fun _ => (1 # 2)%Q) 0
                   {| musicTracks := [] |} _ _)); vm_compute; congruence.
Defined.

End ServerProperties.

(** * Further properties *)

(** ** The synthesis primitives and the steps of the loop *)

Module AudioExtras.
Import Mixer.
Local Open Scope R_scope.

Lemma renderSample_mixdown p sr notes prog vibe i o n :
  renderSample p sr notes prog vibe i o n = mixdown p sr notes prog vibe i o n.
Proof.
  unfold renderSample, mixdown, layers, finish, chordNotes, envelope, currentMeasure,
    beatInMeasure, measureLength, beatLength, sampleTime, bind, ret.
  destruct (generateBass _ _ _ _ _ o n) as [bass n1].
  destruct (applyMoodEffects _ _ _ _ _ o n1) as [s n2].
  reflexivity.
Qed.

(** waveform *)
Lemma floor_bounds (x : R) : IZR (Math_floor x) <= x < IZR (Math_floor x) + 1.
Proof. unfold Math_floor. pose proof (base_Int_part x). lra. Qed.

Lemma div_unit (a d : R) : 0 < d -> - d <= a <= d -> -1 <= a / d <= 1.
Proof.
  intros Hd Ha.
  split; apply Rmult_le_reg_r with d; try exact Hd;
    replace (a / d * d) with a by (field; lra); lra.
Qed.

Lemma waveform_range (frequency time : R) (type : Waveform) :
  -1 <= generateWaveform frequency time type <= 1.
Proof.
  unfold generateWaveform. destruct type.
  - apply SIN_bound.
  - pose proof (asin_bound (sin (2 * PI * frequency * time))) as [Hlo Hhi].
    pose proof PI_RGT_0 as Hpi.
    set (a := asin _) in *.
    assert (E : 2 / PI * a = a / (PI / 2)) by (field; lra).
    rewrite E. apply div_unit; lra.
  - pose proof (floor_bounds (2 * PI * frequency * time / (2 * PI) + 0.5)). lra.
Qed.

(** X1. Whatever the frequency, the time and the shape, a waveform sample
    lies between -1 and 1. *)
Theorem generateWaveform_bounded (frequency time : R) (type : Waveform) :
  -1 <= generateWaveform frequency time type <= 1.
Proof. apply waveform_range. Qed.

(** X2. For every note, [undefined] and unknown names included, and every
    octave, the frequency is strictly positive, one octave up doubles it, and
    the two copies of [getFrequency] agree. *)
Theorem getFrequency_positive_octave (note : option string) (octave : R) :
  0 < getFrequency note octave
  /\ getFrequency note (octave + 1) = 2 * getFrequency note octave
  /\ getFrequency_inner note octave = getFrequency note octave.
Proof.
  unfold getFrequency_inner, getFrequency. fold noteMap. rewrite !Math_pow_2.
  set (k := IZR (indexOf noteMap note)).
  repeat split.
  - pose proof (Rpower_2_pos ((k - 9 + (octave - 4) * 12) / 12)). lra.
  - replace ((k - 9 + (octave + 1 - 4) * 12) / 12)
      with ((k - 9 + (octave - 4) * 12) / 12 + 1) by field.
    rewrite Rpower_plus, Rpower_1 by lra. ring.
Qed.

(** X3. Two neighbours of the chromatic sequence are a semitone apart: the
    frequency of the second is the frequency of the first times [2^(1/12)]. *)
Theorem getFrequency_semitone (a b : string) (i : nat) (octave : R) :
  nth_error noteMap i = Some a ->
  nth_error noteMap (S i) = Some b ->
  getFrequency (Some b) octave = getFrequency (Some a) octave * Rpower 2 (1 / 12).
Proof.
  intros Ha Hb. unfold getFrequency. fold noteMap.
  rewrite (indexOf_position a i Ha), (indexOf_position b (S i) Hb), !Math_pow_2.
  rewrite Rmult_assoc, <- Rpower_plus. do 2 f_equal.
  rewrite Nat2Z.inj_succ, succ_IZR. field.
Qed.

(** X4. With a draw of [[0, 1)] and a time that is not negative, the noise
    sample is bounded in magnitude by [exp(-10 time)], which is at most 1, and
    the call consumes exactly one draw. *)
Theorem generateNoise_decay (time : R) (o : oracle) (n : nat) :
  0 <= o n -> o n < 1 -> 0 <= time ->
  Rabs (fst (generateNoise time o n)) <= exp (- time * 10)
  /\ exp (- time * 10) <= 1
  /\ snd (generateNoise time o n) = S n.
Proof.
  intros H0 H1 Ht. unfold generateNoise, bind, Math_random, ret. cbn [fst snd].
  pose proof (exp_pos (- time * 10)) as He.
  repeat split.
  - rewrite Rabs_mult, (Rabs_pos_eq (exp _)) by lra.
    rewrite <- (Rmult_1_l (exp _)) at 2.
    apply Rmult_le_compat_r; [lra |]. apply Rabs_le. lra.
  - rewrite <- exp_0. destruct (Req_dec time 0) as [-> | Hne].
    + replace (- 0 * 10) with 0 by ring. lra.
    + left. apply exp_increasing. lra.
Qed.

Lemma applyEffect_unknown sample time rootFreq tempo processed effect o n :
  ~ In effect effectNames ->
  applyEffect sample time rootFreq tempo processed effect o n = (processed, n).
Proof.
  intros Hn. unfold applyEffect.
  string_cases; try (exfalso; apply Hn; simpl; tauto).
  reflexivity.
Qed.

(** X5. Effects whose names are not among the twenty known ones leave the
    sample unchanged and consume no draw; so does the empty list. *)
Theorem applyMoodEffects_unknown_noop (sample time rootFreq tempo : R)
        (effects : list string) (o : oracle) (n : nat) :
  (forall effect, In effect effects -> ~ In effect effectNames) ->
  applyMoodEffects sample effects time rootFreq tempo o n = (sample, n).
Proof.
  unfold applyMoodEffects. generalize sample at 2 3 as processed.
  induction effects as [| e rest IH]; intros processed Hall; [reflexivity |].
  cbn [applyEffects]. unfold bind.
  rewrite applyEffect_unknown by (apply Hall; now left).
  apply IH. intros e' He'. apply Hall. now right.
Qed.

(** X6. The effect chain of the 'steady' profile, 'focus' then 'sharp', brings
    any sample within 0.84 in magnitude ('focus' clamps to 0.8, 'sharp'
    scales by at most 1.05) and consumes no draw. *)
Theorem steady_effects_bounded (sample time rootFreq tempo : R) (o : oracle) (n : nat) :
  Rabs (fst (applyMoodEffects sample ["focus"; "sharp"] time rootFreq tempo o n)) <= 0.84
  /\ snd (applyMoodEffects sample ["focus"; "sharp"] time rootFreq tempo o n) = n.
Proof.
  unfold applyMoodEffects. cbn [applyEffects]. unfold bind, applyEffect.
  string_cases. cbn [ret fst snd]. split; [| reflexivity].
  set (p := if gt sample 0 then Rmin sample 0.8 else Rmax sample (-0.8)).
  assert (Hp : -0.8 <= p <= 0.8).
  { unfold p, gt. destruct (Rlt_dec 0 sample) as [H | H].
    - unfold Rmin. destruct (Rle_dec sample 0.8); lra.
    - unfold Rmax. destruct (Rle_dec sample (-0.8)); lra. }
  clearbody p. unfold Math_sign.
  apply Rabs_le.
  destruct (Rlt_dec 0 p); [| destruct (Rlt_dec p 0)]; lra.
Qed.

Lemma tanh_0 : tanh 0 = 0.
Proof. unfold tanh. rewrite sinh_0. unfold Rdiv. apply Rmult_0_l. Qed.

Lemma finish_at_0 (p : MusicParams) (sample : R) : finish p 0 sample = 0.
Proof.
  unfold finish, envelope, lt. destruct (Rlt_dec 0 2) as [_ | H]; [| lra].
  replace (sample * (0 / 2)) with 0 by field.
  destruct (scale p =? "minor")%string.
  - replace (0 * 0.7 * 0.8) with 0 by ring. rewrite tanh_0. ring.
  - replace (0 * 0.8) with 0 by ring. rewrite tanh_0. ring.
Qed.

Lemma mixdown_first (p : MusicParams) (sr : nat) notes prog vibe o n :
  fst (mixdown p sr notes prog vibe 0 o n) = 0.
Proof.
  unfold mixdown.
  destruct (chordNotes _ _ _) as [[r t] f]. unfold bind, ret.
  destruct (layers _ _ _ _ _ _ _ _ _ o n) as [s n1].
  destruct (applyMoodEffects _ _ _ _ _ o n1) as [s' n2]. cbn [fst].
  replace (sampleTime sr 0) with 0; [apply finish_at_0 |].
  unfold sampleTime. simpl INR. unfold Rdiv. now rewrite Rmult_0_l.
Qed.

Lemma set_firstn {A} (l : list A) (i j : nat) (v : A) :
  (j <= i)%nat -> firstn j (set l i v) = firstn j l.
Proof.
  revert i j. induction l as [| x l IH]; intros i j Hj; [reflexivity |].
  destruct i as [| i]; destruct j as [| j]; simpl; try reflexivity; try lia.
  f_equal. apply IH. lia.
Qed.

Lemma renderLoop_keeps_prefix body remaining i left right o n :
  firstn i (fst (fst (renderLoop body remaining i left right o n))) = firstn i left
  /\ firstn i (snd (fst (renderLoop body remaining i left right o n))) = firstn i right.
Proof.
  revert i left right o n.
  induction remaining as [| r IH]; intros i left right o n; cbn [renderLoop].
  - auto.
  - unfold bind. destruct (body i o n) as [s n1].
    destruct (IH (S i) (set left i s) (set right i (s * 0.95)) o n1) as [Hl Hr].
    split.
    + apply (f_equal (firstn i)) in Hl. rewrite !firstn_firstn in Hl.
      replace (Nat.min i (S i)) with i in Hl by lia.
      rewrite Hl. now apply set_firstn.
    + apply (f_equal (firstn i)) in Hr. rewrite !firstn_firstn in Hr.
      replace (Nat.min i (S i)) with i in Hr by lia.
      rewrite Hr. now apply set_firstn.
Qed.

(** X7. For every rhythm among the ten identifiers, both scales and a
    positive sample rate, the first sample of both channels of the rendered
    buffer is exactly 0: the fade-in starts from silence. *)
Theorem first_sample_silent (p : MusicParams) (sr : nat) (o : oracle) :
  In (rhythm p) rhythmIdentifiers ->
  scale p = "major" \/ scale p = "minor" ->
  (0 < sr)%nat ->
  exists left right : list R,
    generateAudioFromMood p sr o
      = Returned {| sampleRate := sr; channelData := [0 :: left; 0 :: right] |}.
Proof.
  intros Hrhythm Hscale Hsr. unfold generateAudioFromMood.
  assert (Hs : exists notes, scaleNotes (key p) (scale p) = Some notes).
  { unfold scaleNotes. destruct Hscale as [-> | ->]; eexists; reflexivity. }
  destruct Hs as [notes ->].
  destruct (getMoodVibe_own _ (tempo p) (scale p) Hrhythm) as (v & -> & _).
  assert (Hn : exists m, (sr * Z.to_nat duration)%nat = S m).
  { exists (sr * 30 - 1)%nat. change (Z.to_nat duration) with 30%nat. lia. }
  destruct Hn as [m ->].
  change (getChannelData (createBuffer 2 (S m) sr) 0) with (0 :: repeat 0 m).
  change (getChannelData (createBuffer 2 (S m) sr) 1) with (0 :: repeat 0 m).
  cbn [renderLoop]. unfold bind at 1.
  pose proof (mixdown_first p sr notes (getChordProgression (scale p)) v o 0%nat) as H0.
  rewrite <- renderSample_mixdown in H0.
  destruct (renderSample _ _ _ _ _ 0%nat o 0%nat) as [s n1]. cbn [fst] in H0. subst s.
  cbn [set]. replace (0 * 0.95) with 0 by ring.
  pose proof (renderLoop_keeps_prefix
                (renderSample p sr notes (getChordProgression (scale p)) v)
                m 1%nat (0 :: repeat 0 m) (0 :: repeat 0 m) o n1) as [Hl Hr].
  destruct (renderLoop _ m 1%nat _ _ o n1) as [[left right] k]. cbn [fst snd] in *.
  destruct left as [| a left]; [discriminate |].
  destruct right as [| b right]; [discriminate |].
  cbn [firstn] in Hl, Hr. injection Hl as ->. injection Hr as ->.
  now exists left, right.
Qed.

Lemma floor_nonneg (x : R) : 0 <= x -> (0 <= Math_floor x)%Z.
Proof.
  intros Hx. pose proof (floor_bounds x) as [_ H].
  apply le_IZR. assert (-1 < IZR (Math_floor x)) by lra.
  assert (H1 : (-1 < Math_floor x)%Z) by now apply lt_IZR. 
  apply IZR_le. lia.
Qed.

Lemma floor_lt (x : R) (k : Z) : x < IZR k -> (Math_floor x < k)%Z.
Proof.
  intros Hx. pose proof (floor_bounds x) as [H _]. apply lt_IZR. lra.
Qed.

Lemma fmod_bounds (x y : R) : 0 <= x -> 0 < y -> 0 <= fmod x y < y.
Proof.
  intros Hx Hy. unfold fmod, Math_trunc.
  assert (Hq : 0 <= x / y) by (apply Rmult_le_pos; [lra | left; now apply Rinv_0_lt_compat]).
  destruct (Rle_dec 0 (x / y)) as [_ | H]; [| contradiction].
  pose proof (base_Int_part (x / y)) as [Hlo Hhi].
  set (q := IZR (Int_part (x / y))) in *.
  assert (E : x = y * (x / y)) by (field; lra).
  split.
  - assert (y * q <= y * (x / y)) by (apply Rmult_le_compat_l; lra). lra.
  - assert (y * (x / y) < y * (q + 1)) by (apply Rmult_lt_compat_l; lra). lra.
Qed.

Lemma getU_map_Some (names : list string) (j : Z) :
  (0 <= j < Z.of_nat (length names))%Z ->
  exists n, getU (map Some names) j = Some n /\ In n names.
Proof.
  intros Hj. unfold getU, get.
  destruct (Z.ltb_spec j 0) as [H | _]; [lia |].
  destruct (nth_error names (Z.to_nat j)) as [n |] eqn:E.
  - exists n. rewrite nth_error_map, E. split; [reflexivity |]. eapply nth_error_In, E.
  - apply nth_error_None in E. lia.
Qed.

(** X8. On a scale of seven defined notes and at a position that is not
    negative, the melody's note lookup [scaleNotes[Math.floor(x % length)]]
    never leaves the scale: it returns one of its notes. *)
Theorem noteAt_in_scale (notes : list (option string)) (x : R) :
  sevenDistinctNotes notes -> 0 <= x ->
  exists n, noteAt notes x = Some n /\ In (Some n) notes /\ In n noteMap.
Proof.
  intros (names & -> & Hlen & _ & Hincl) Hx. unfold noteAt.
  rewrite length_map, Hlen.
  assert (Hm : 0 <= fmod x (INR 7) < INR 7).
  { apply fmod_bounds; [exact Hx |]. simpl. lra. }
  destruct (getU_map_Some names (Math_floor (fmod x (INR 7)))) as (n & Hn & Hin).
  { rewrite Hlen. split; [apply floor_nonneg; lra |].
    apply floor_lt. rewrite <- INR_IZR_INZ. lra. }
  exists n. repeat split; auto. now apply in_map.
Qed.

(** X9. With a positive tempo and a time that is not negative, the measure
    index is one of 0..3, and on a scale of seven defined notes the root, the
    third and the fifth of the current chord are all defined notes. *)
Theorem chord_tones_in_scale (p : MusicParams) (notes : list (option string)) (time : R) :
  0 < tempo p -> 0 <= time ->
  scale p = "major" \/ scale p = "minor" ->
  sevenDistinctNotes notes ->
  (0 <= currentMeasure p time < 4)%Z
  /\ exists r t f : string,
      chordNotes notes (getChordProgression (scale p)) (currentMeasure p time)
        = (Some r, Some t, Some f)
      /\ In r noteMap /\ In t noteMap /\ In f noteMap.
Proof.
  intros Htempo Htime Hscale (names & -> & Hlen & _ & Hincl).
  assert (Hm : (0 <= currentMeasure p time < 4)%Z).
  { unfold currentMeasure. apply Z.rem_bound_pos; [| lia].
    apply floor_nonneg. unfold measureLength, beatLength.
    apply Rmult_le_pos; [exact Htime |]. left. apply Rinv_0_lt_compat.
    assert (0 < 60 / tempo p) by (apply Rdiv_lt_0_compat; lra). lra. }
  split; [exact Hm |].
  set (m := currentMeasure p time) in *. clearbody m.
  unfold chordNotes. rewrite length_map, Hlen.
  assert (Hc : exists c, get (getChordProgression (scale p)) m = Some c
                         /\ (0 <= c < 7)%Z).
  { assert (Hcases : (m = 0 \/ m = 1 \/ m = 2 \/ m = 3)%Z) by lia.
    destruct Hscale as [-> | ->];
      destruct Hcases as [-> | [-> | [-> | ->]]];
      eexists; (split; [reflexivity | lia]). }
  destruct Hc as (c & -> & Hcr). cbn [option_map noteOfDegree].
  destruct (getU_map_Some names c) as (r & -> & Hr); [lia |].
  destruct (getU_map_Some names (Z.rem (c + 2) (Z.of_nat 7))) as (t & -> & Ht).
  { rewrite Hlen. apply Z.rem_bound_pos; lia. }
  destruct (getU_map_Some names (Z.rem (c + 4) (Z.of_nat 7))) as (f & -> & Hf).
  { rewrite Hlen. apply Z.rem_bound_pos; lia. }
  exists r, t, f. repeat split; auto.
Qed.

Lemma Rabs_sin_le (x : R) : Rabs (sin x) <= 1.
Proof. apply Rabs_le, SIN_bound. Qed.

Lemma Rabs_wave_le (f t : R) (w : Waveform) : Rabs (generateWaveform f t w) <= 1.
Proof. apply Rabs_le, waveform_range. Qed.

Lemma Rabs_minus_le (a b : R) : Rabs (a - b) <= Rabs a + Rabs b.
Proof.
  unfold Rminus. eapply Rle_trans; [apply Rabs_triang |]. rewrite Rabs_Ropp. lra.
Qed.

Ltac bound :=
  first
    [ eassumption
    | lazymatch goal with
      | |- Rabs (?a * ?b) <= _ =>
          rewrite (Rabs_mult a b);
          apply Rmult_le_compat; [apply Rabs_pos | apply Rabs_pos | bound | bound]
      | |- Rabs (?a + ?b) <= _ =>
          eapply Rle_trans; [apply (Rabs_triang a b) | apply Rplus_le_compat; bound]
      | |- Rabs (?a - ?b) <= _ =>
          eapply Rle_trans; [apply (Rabs_minus_le a b) | apply Rplus_le_compat; bound]
      | |- Rabs (sin _) <= _ => apply Rabs_sin_le
      | |- Rabs (Rabs ?x) <= _ => rewrite (Rabs_Rabsolu x); bound
      | |- Rabs (generateWaveform _ _ _) <= _ => apply Rabs_wave_le
      | |- Rabs ?c <= _ => rewrite (Rabs_pos_eq c) by lra; apply Rle_refl
      end ].

Ltac bounded_by := eapply Rle_trans; [bound | lra].

Lemma exp_neg_le_1 (x : R) : 0 <= x -> exp (- x) <= 1.
Proof.
  intros Hx. rewrite <- exp_0. destruct (Req_dec x 0) as [-> | Hne].
  - rewrite Ropp_0. lra.
  - left. apply exp_increasing. lra.
Qed.

(** X10. With a time that is not negative and a draw of [[0, 1)], the bass
    sample is bounded in magnitude by 0.78 for every style, listed or not, and
    by 0.5 for every style other than 'pounding'. *)
Theorem generateBass_amplitude (bassType : string) (rootFreq time beat : R)
        (complexity : Z) (o : oracle) (n : nat) :
  0 <= time -> 0 <= o n -> o n < 1 ->
  Rabs (fst (generateBass bassType rootFreq time beat complexity o n)) <= 0.78
  /\ (bassType <> "pounding" ->
      Rabs (fst (generateBass bassType rootFreq time beat complexity o n)) <= 0.5).
Proof.
  intros Ht H0 H1.
  assert (Hhollow : Rabs (1 - exp (- time * 0.1)) <= 1).
  { pose proof (exp_pos (- time * 0.1)). pose proof (exp_neg_le_1 (time * 0.1)).
    replace (- time * 0.1) with (- (time * 0.1)) by ring.
    replace (- time * 0.1) with (- (time * 0.1)) in H by ring.
    apply Rabs_le. lra. }
  assert (Hnoise : Rabs (o n * 2 - 1) <= 1) by (apply Rabs_le; lra).
  assert (Hdecay : Rabs (exp (- time * 10)) <= 1).
  { pose proof (exp_pos (- time * 10)). pose proof (exp_neg_le_1 (time * 10)).
    replace (- time * 10) with (- (time * 10)) by ring.
    replace (- time * 10) with (- (time * 10)) in H by ring.
    apply Rabs_le. lra. }
  unfold generateBass, generateBassWith, generateNoise, bind, Math_random, ret.
  split; [| intros Hp]; string_cases; cbn [fst]; bool_cases; bounded_by.
Qed.

(** X11. With a time that is not negative, the harmony sample is bounded in
    magnitude by 1.08 for every style, listed or not. *)
Theorem generateHarmony_amplitude (harmonyType : string) (root third fifth time tempo : R) :
  0 <= time ->
  Rabs (generateHarmony harmonyType root third fifth time tempo) <= 1.08.
Proof.
  intros Ht.
  assert (Hdecay : Rabs (exp (- time * 0.05)) <= 1).
  { pose proof (exp_pos (- time * 0.05)). pose proof (exp_neg_le_1 (time * 0.05)).
    replace (- time * 0.05) with (- (time * 0.05)) by ring.
    replace (- time * 0.05) with (- (time * 0.05)) in H by ring.
    apply Rabs_le. lra. }
  unfold generateHarmony. string_cases; cbv zeta; bounded_by.
Qed.

(** X12. The melody sample is bounded in magnitude by 0.448 for every style,
    scale, time and tempo. *)
Theorem generateMelody_amplitude (melodyStyle : string) (notes : list (option string))
        (time tempo : R) (measure : Z) :
  Rabs (generateMelody melodyStyle notes time tempo measure) <= 0.448.
Proof.
  unfold generateMelody. string_cases; cbv zeta; bounded_by.
Qed.

(** X13. A key whose first character is not a note name gives the key index
    -1: the scale is the one of 'B' with its first degree replaced by
    [undefined], and the frequency computed for that degree at octave 3 is
    [440 * 2^(-22/12)]. *)
Theorem scaleNotes_unknown_key (key mode : string) :
  ~ In (charAt0 key) noteMap ->
  mode = "major" \/ mode = "minor" ->
  exists (tonic : option string) (rest : list (option string)),
    scaleNotes "B" mode = Some (tonic :: rest)
    /\ scaleNotes key mode = Some (None :: rest)
    /\ getFrequency_inner None 3 = 440 * Rpower 2 (-22 / 12).
Proof.
  intros Hkey Hmode.
  assert (Hk : keyIndex key = (-1)%Z).
  { unfold keyIndex, indexOf. now apply indexOfFrom_absent. }
  unfold scaleNotes. rewrite Hk.
  destruct Hmode as [-> | ->]; do 2 eexists; (split; [reflexivity |]);
    (split; [reflexivity |]);
    unfold getFrequency_inner; rewrite Math_pow_2; cbn [indexOf];
    do 2 f_equal; field.
Qed.

Lemma getFrequency_semitone_witness :
  getFrequency (Some "A"%string) 4 = getFrequency (Some "G#"%string) 4 * Rpower 2 (1 / 12).
Proof.
  exact (getFrequency_semitone "G#" "A" 8 4 eq_refl eq_refl).
Defined.

Lemma generateNoise_decay_witness :
  Rabs (fst (generateNoise 1 (fun _ => 0.5) 0%nat)) <= exp (- 1 * 10).
Proof.
  refine (proj1 (generateNoise_decay 1 (fun _ => 0.5) 0%nat _ _ _)); lra.
Defined.

Lemma applyMoodEffects_unknown_noop_witness :
  applyMoodEffects 0.25 ["echo"; "chorus"]%string 1 220 120 (fun _ => 0) 0%nat
  = (0.25, 0%nat).
Proof.
  apply (applyMoodEffects_unknown_noop 0.25 1 220 120 ["echo"; "chorus"]%string).
  intros effect [<- | [<- | []]]; simpl; intuition discriminate.
Defined.

Lemma first_sample_silent_witness :
  exists left right : list R,
    generateAudioFromMood
      {| tempo := 70; key := "F"; scale := "major"; rhythm := "flowing" |} 8000 (fun _ => 0)
    = Returned {| sampleRate := 8000; channelData := [0 :: left; 0 :: right] |}.
Proof.
  apply (first_sample_silent
           {| tempo := 70; key := "F"; scale := "major"; rhythm := "flowing" |}
           8000 (fun _ => 0)).
  - simpl. tauto.
  - left. reflexivity.
  - apply Nat.lt_0_succ.
Defined.

Lemma C_major_seven : sevenDistinctNotes (scaleFrom 0 [0; 2; 4; 5; 7; 9; 11]%Z).
Proof.
  apply (sevenDistinctNotes_compute ["C"; "D"; "E"; "F"; "G"; "A"; "B"]%string);
    reflexivity.
Qed.

Lemma noteAt_in_scale_witness :
  exists n, noteAt (scaleFrom 0 [0; 2; 4; 5; 7; 9; 11]%Z) 2.5 = Some n
            /\ In (Some n) (scaleFrom 0 [0; 2; 4; 5; 7; 9; 11]%Z) /\ In n noteMap.
Proof.
  apply (noteAt_in_scale _ 2.5 C_major_seven). lra.
Defined.

Lemma chord_tones_in_scale_witness :
  (0 <= currentMeasure
          {| tempo := 120; key := "C"; scale := "major"; rhythm := "upbeat" |} 3 < 4)%Z.
Proof.
  refine (proj1 (chord_tones_in_scale
                   {| tempo := 120; key := "C"; scale := "major"; rhythm := "upbeat" |}
                   (scaleFrom 0 [0; 2; 4; 5; 7; 9; 11]%Z) 3 _ _ _ C_major_seven)).
  - simpl. lra.
  - lra.
  - left. reflexivity.
Defined.

Lemma generateBass_amplitude_witness :
  Rabs (fst (generateBass "pounding" 220 1 0.5 8 (fun _ => 0.5) 0%nat)) <= 0.78.
Proof.
  refine (proj1 (generateBass_amplitude "pounding" 220 1 0.5 8 (fun _ => 0.5) 0%nat _ _ _));
    lra.
Defined.

Lemma generateHarmony_amplitude_witness :
  Rabs (generateHarmony "vibrant" 220 277 330 1 130) <= 1.08.
Proof.
  apply (generateHarmony_amplitude "vibrant" 220 277 330 1 130). lra.
Defined.

Lemma scaleNotes_unknown_key_witness :
  exists (tonic : option string) (rest : list (option string)),
    scaleNotes "B" "minor" = Some (tonic :: rest)
    /\ scaleNotes "H" "minor" = Some (None :: rest)
    /\ getFrequency_inner None 3 = 440 * Rpower 2 (-22 / 12).
Proof.
  apply (scaleNotes_unknown_key "H" "minor").
  - simpl. intuition discriminate.
  - right. reflexivity.
Defined.

End AudioExtras.

(** ** Sorting, maps and the in-memory storage *)

Import JSArray.

Section SortFacts.
Context {A : Type}.

Lemma insertBy_perm (compare : A -> A -> Z) (x : A) (l : list A) :
  Permutation (insertBy compare x l) (x :: l).
Proof.
  induction l as [| y l IH]; cbn [insertBy]; [reflexivity |].
  destruct (compare x y <=? 0); [reflexivity |].
  rewrite IH. apply perm_swap.
Qed.

Lemma sortBy_perm (compare : A -> A -> Z) (l : list A) :
  Permutation (sortBy compare l) l.
Proof.
  induction l as [| x l IH]; cbn [sortBy]; [reflexivity |].
  rewrite insertBy_perm. now constructor.
Qed.

Variable rank : A -> Z.
Let byRank (a b : A) : Z := rank b - rank a.
Let descending (a b : A) : Prop := rank b <= rank a.

Lemma insertBy_sorted (x : A) (l : list A) :
  StronglySorted descending l -> StronglySorted descending (insertBy byRank x l).
Proof.
  induction 1 as [| y l Hs IH Hall]; cbn [insertBy].
  - repeat constructor.
  - destruct (Z.leb_spec (byRank x y) 0) as [Hle | Hgt]; unfold byRank in *.
    + constructor; [now constructor |].
      constructor; [unfold descending; lia |].
      revert Hall. apply Forall_impl. unfold descending. intros. lia.
    + constructor; [exact IH |].
      eapply Permutation_Forall; [symmetry; apply insertBy_perm |].
      constructor; [unfold descending; lia | exact Hall].
Qed.

Lemma sortBy_sorted (l : list A) : StronglySorted descending (sortBy byRank l).
Proof.
  induction l as [| x l IH]; cbn [sortBy]; [constructor | now apply insertBy_sorted].
Qed.

Lemma insertBy_front (x : A) (l : list A) :
  Forall (fun z => rank z <= rank x) l -> insertBy byRank x l = x :: l.
Proof.
  destruct 1 as [| y l Hy _]; cbn [insertBy]; [reflexivity |].
  destruct (Z.leb_spec (byRank x y) 0) as [_ | Hgt]; [reflexivity |].
  unfold byRank in Hgt. lia.
Qed.

Lemma filter_insertBy (keep : A -> bool) (x : A) (l : list A) :
  StronglySorted descending l ->
  filter keep (insertBy byRank x l)
  = if keep x then insertBy byRank x (filter keep l) else filter keep l.
Proof.
  induction 1 as [| y l Hs IH Hall]; cbn [insertBy filter].
  - destruct (keep x); reflexivity.
  - destruct (Z.leb_spec (byRank x y) 0) as [Hle | Hgt].
    + cbn [filter]. destruct (keep x) eqn:Kx; [| reflexivity].
      destruct (keep y) eqn:Ky.
      * cbn [insertBy]. destruct (Z.leb_spec (byRank x y) 0); [reflexivity | lia].
      * symmetry. apply insertBy_front.
        apply incl_Forall with l; [apply incl_filter |].
        revert Hall. apply Forall_impl. unfold descending, byRank in *. intros. lia.
    + cbn [filter]. rewrite IH.
      destruct (keep x) eqn:Kx; destruct (keep y) eqn:Ky; try reflexivity.
      cbn [insertBy]. destruct (Z.leb_spec (byRank x y) 0); [lia | reflexivity].
Qed.

Lemma filter_sortBy (keep : A -> bool) (l : list A) :
  filter keep (sortBy byRank l) = sortBy byRank (filter keep l).
Proof.
  induction l as [| x l IH]; cbn [sortBy filter]; [reflexivity |].
  rewrite filter_insertBy by apply sortBy_sorted.
  rewrite IH. destruct (keep x); reflexivity.
Qed.

Lemma mapGet_mapSet_same (m : list (string * A)) (k : string) (v : A) :
  mapGet (mapSet m k v) k = Some v.
Proof.
  unfold mapGet. induction m as [| [k' v'] m IH]; cbn [mapSet ownProperty].
  - now rewrite String.eqb_refl.
  - destruct (String.eqb_spec k' k) as [-> | Hne]; cbn [ownProperty].
    + now rewrite String.eqb_refl.
    + destruct (String.eqb_spec k' k); [contradiction | exact IH].
Qed.


Lemma mapSet_fresh (m : list (string * A)) (k : string) (v : A) :
  mapGet m k = None -> mapSet m k v = (m ++ [(k, v)])%list.
Proof.
  unfold mapGet. induction m as [| [k' v'] m IH]; cbn [mapSet ownProperty app]; [reflexivity |].
  destruct (String.eqb_spec k' k); [discriminate |].
  intros H. now rewrite IH.
Qed.

End SortFacts.

Module MemStorageProperties.
Import MemStorage.


(** X15. The list of all tracks holds exactly the stored tracks (it is a
    permutation of the values of the map), newest first. *)
Theorem getAllMusicTracks_sorted (st : State) :
  Permutation (getAllMusicTracks st) (mapValues (musicTracks st))
  /\ StronglySorted (fun a b => createdAt b <= createdAt a) (getAllMusicTracks st).
Proof.
  unfold getAllMusicTracks. split.
  - apply sortBy_perm.
  - apply (sortBy_sorted createdAt).
Qed.

Lemma filter_all {A} (l : list A) : filter (fun _ => true) l = l.
Proof. induction l; cbn; congruence. Qed.

(** X16. The tracks of a user are the list of all tracks filtered by the
    user: the order is the same.  Without a user identifier, or with the
    empty one, all tracks are returned; with any other identifier, only
    tracks of that user. *)
Theorem getUserMusicTracks_filter (st : State) (userId : option string) :
  getUserMusicTracks st userId = filter (ofUser userId) (getAllMusicTracks st)
  /\ getUserMusicTracks st None = getAllMusicTracks st
  /\ getUserMusicTracks st (Some "") = getAllMusicTracks st
  /\ (forall u track, u <> "" -> In track (getUserMusicTracks st (Some u)) ->
      MemStorage.userId track = Some u).
Proof.
  unfold getUserMusicTracks, getAllMusicTracks.
  repeat split.
  - symmetry. apply (filter_sortBy createdAt).
  - unfold ofUser. now rewrite filter_all.
  - unfold ofUser. cbn. now rewrite filter_all.
  - intros u track Hu Hin.
    eapply Permutation_in in Hin; [| apply sortBy_perm].
    apply filter_In in Hin as [_ Hkeep]. unfold ofUser in Hkeep.
    destruct (String.eqb_spec u ""); [contradiction |].
    destruct (MemStorage.userId track) as [u' |]; [| discriminate].
    apply String.eqb_eq in Hkeep. now subst.
Qed.

Lemma find_app_none {A} (f : A -> bool) (l l' : list A) :
  find f l = None -> find f (l ++ l') = find f l'.
Proof.
  induction l as [| x l IH]; cbn; [reflexivity |].
  destruct (f x); [discriminate | exact IH].
Qed.

Lemma find_app_some {A} (f : A -> bool) (l l' : list A) (x : A) :
  find f l = Some x -> find f (l ++ l') = Some x.
Proof.
  induction l as [| y l IH]; cbn; [discriminate |].
  destruct (f y); [auto | exact IH].
Qed.

(** X17. After a user is created under a fresh identifier, the user is found
    under that identifier and the map has one more entry.  The lookup by name
    returns the new user when the name was not taken; when it was, the user
    who had the name first is still the one returned: the store does not
    keep names unique. *)
Theorem createUser_lookup (st : State) (uuid : string) (ins : InsertUser) :
  getUser st uuid = None ->
  let user := fst (createUser st uuid ins) in
  let st' := snd (createUser st uuid ins) in
  getUser st' uuid = Some user
  /\ (getUserByUsername st (insert_username ins) = None ->
      getUserByUsername st' (insert_username ins) = Some user)
  /\ (forall old, getUserByUsername st (insert_username ins) = Some old ->
      getUserByUsername st' (insert_username ins) = Some old)
  /\ List.length (users st') = S (List.length (users st)).
Proof.
  intros Hfresh. cbn. unfold getUser, getUserByUsername, mapValues in *. cbn.
  rewrite (mapSet_fresh _ _ _ Hfresh).
  repeat split.
  - rewrite <- (mapSet_fresh _ _ _ Hfresh). apply mapGet_mapSet_same.
  - intros Hnone. rewrite map_app, (find_app_none _ _ _ Hnone). cbn.
    now rewrite String.eqb_refl.
  - intros old Hold. rewrite map_app. now apply find_app_some.
  - rewrite length_app. cbn. lia.
Qed.


Lemma getUserMusicTracks_filter_witness :
  getUserMusicTracks (snd (createMusicTrack empty "id-1" 1000 
     {| insert_title := "Calm Theme"; insert_mood := "calm"; insert_moodEmoji := "";
        insert_duration := 42; insert_audioData := None; insert_userId := None |})) (Some "")
  = getAllMusicTracks (snd (createMusicTrack empty "id-1" 1000 
     {| insert_title := "Calm Theme"; insert_mood := "calm"; insert_moodEmoji := "";
        insert_duration := 42; insert_audioData := None; insert_userId := None |})).
Proof.
  exact (proj1 (proj2 (proj2 (getUserMusicTracks_filter
                  (snd (createMusicTrack empty "id-1" 1000 
     {| insert_title := "Calm Theme"; insert_mood := "calm"; insert_moodEmoji := "";
        insert_duration := 42; insert_audioData := None; insert_userId := None |})) None)))).
Defined.

Lemma createUser_lookup_witness :
  getUser (snd (createUser empty "id-1"
                  {| insert_username := "ada"; insert_password := "pw" |})) "id-1"
  = Some (fst (createUser empty "id-1"
                 {| insert_username := "ada"; insert_password := "pw" |})).
Proof.
  refine (proj1 (createUser_lookup empty "id-1"
                   {| insert_username := "ada"; insert_password := "pw" |} _)).
  reflexivity.
Defined.

End MemStorageProperties.

(** ** The mood detection and the routes of the server *)

Module ServerExtras.
Import Server.
Import Scores.
Import Routes.
Import ServerProperties.

Lemma ownProperty_NoDup {A} (l : list (string * A)) (k : string) (v : A) :
  NoDup (map fst l) -> In (k, v) l -> ownProperty l k = Some v.
Proof.
  induction l as [| [k' v'] l IH]; cbn [map fst In ownProperty]; [contradiction |].
  intros Hnd [Heq | Hin].
  - injection Heq as -> ->. now rewrite String.eqb_refl.
  - inversion Hnd as [| ? ? Hnotin Hnd']; subst.
    destruct (String.eqb_spec k' k) as [-> | Hne].
    + exfalso. apply Hnotin. now apply (in_map fst) in Hin.
    + now apply IH.
Qed.

(** The reduction keeps the later of two entries unless the earlier one is
    strictly greater: the result is the last of the greatest entries. *)
Lemma fold_left_last_max {E : Type} (rank : E -> Z) (f : E -> E -> E) (l : list E) (x : E) :
  (forall a b, In a (x :: l) -> In b (x :: l) ->
               f a b = if rank a >? rank b then a else b) ->
  exists pre post,
    x :: l = (pre ++ fold_left f l x :: post)%list
    /\ (forall e, In e pre -> rank e <= rank (fold_left f l x))
    /\ (forall e, In e post -> rank e < rank (fold_left f l x)).
Proof.
  induction l as [| y l IH] using rev_ind; intros Hf.
  - exists [], []. cbn. repeat split; intros e [].
  - destruct IH as (pre & post & Hdec & Hpre & Hpost).
    { intros a b Ha Hb. apply Hf.
      - rewrite app_comm_cons. apply in_or_app. now left.
      - rewrite app_comm_cons. apply in_or_app. now left. }
    rewrite fold_left_app. cbn [fold_left].
    set (top := fold_left f l x) in *.
    rewrite Hf.
    + destruct (Z.gtb_spec (rank top) (rank y)) as [Hgt | Hle].
      * exists pre, (post ++ [y])%list. repeat split.
        -- rewrite app_comm_cons, Hdec, <- app_assoc. reflexivity.
        -- exact Hpre.
        -- intros e He. apply in_app_or in He as [He | [<- | []]]; [auto | lia].
      * exists (x :: l), []. repeat split.
        -- intros e He. rewrite Hdec in He.
           apply in_app_or in He as [He | [<- | He]].
           ++ specialize (Hpre e He). lia.
           ++ lia.
           ++ specialize (Hpost e He). lia.
        -- intros e [].
    + rewrite app_comm_cons. apply in_or_app. left.
      rewrite Hdec. apply in_or_app. right. now left.
    + rewrite app_comm_cons. apply in_or_app. right. now left.
Qed.

Lemma fold_left_ext_In {E : Type} (f g : E -> E -> E) (l : list E) (x : E) :
  (forall a b, f a b = a \/ f a b = b) ->
  (forall a b, In a (x :: l) -> In b (x :: l) -> f a b = g a b) ->
  fold_left f l x = fold_left g l x.
Proof.
  intros Hchoice. revert x. induction l as [| y l IH]; intros x Hfg; [reflexivity |].
  cbn [fold_left]. rewrite <- (Hfg x y) by (simpl; auto).
  apply IH. intros a b Ha Hb. apply Hfg.
  - destruct Ha as [<- | Ha]; [| simpl; auto].
    destruct (Hchoice x y) as [-> | ->]; simpl; auto.
  - destruct Hb as [<- | Hb]; [| simpl; auto].
    destruct (Hchoice x y) as [-> | ->]; simpl; auto.
Qed.

Lemma scoreTable_keys (text : string) : map fst (scoreTable text) = MOODS.
Proof. reflexivity. Qed.

Lemma MOODS_NoDup : NoDup MOODS.
Proof.
  assert (H : nodup string_dec MOODS = MOODS) by reflexivity.
  rewrite <- H. apply NoDup_nodup.
Qed.

Lemma analyzeMoodFromText_top_mood_aux (text : string) :
  exists (pre post : list (string * Z)) (top : string * Z),
    scoreTable text = (pre ++ top :: post)%list
    /\ (forall e, In e pre -> snd e <= snd top)
    /\ (forall e, In e post -> snd e < snd top)
    /\ analyzeMoodFromText text
       = Returned {| mood := if snd top >? 0 then fst top else "calm";
                     confidence := clampedConfidence (snd top) (splitLength text) |}.
Proof.
  unfold analyzeMoodFromText.
  change (map _ moodKeywords) with (scoreTable text).
  pose proof (scoreTable_keys text) as Hkeys.
  pose proof MOODS_NoDup as Hnd. rewrite <- Hkeys in Hnd.
  set (scores := scoreTable text) in *.
  set (pick := fun a b : string * Z => if scoreGt scores (fst a) (fst b) then a else b).
  set (pick' := fun a b : string * Z => if snd a >? snd b then a else b).
  assert (Hpick : forall a b, In a scores -> In b scores -> pick a b = pick' a b).
  { intros [ka va] [kb vb] Ha Hb. unfold pick, pick', scoreGt. cbn [fst snd].
    now rewrite (ownProperty_NoDup _ _ _ Hnd Ha), (ownProperty_NoDup _ _ _ Hnd Hb). }
  destruct scores as [| first rest] eqn:Es; [discriminate |].
  cbn [reduce].
  rewrite (fold_left_ext_In pick pick' rest first).
  - destruct (fold_left_last_max snd pick' rest first) as (pre & post & Hdec & Hpre & Hpost).
    { reflexivity. }
    exists pre, post, (fold_left pick' rest first). repeat split; auto.
  - intros a b. unfold pick. destruct (scoreGt _ _ _); auto.
  - exact Hpick.
Qed.

(** X18. The mood analysis of the server returns the last of the moods with
    the greatest keyword score (every earlier mood scores at most as much,
    every later mood strictly less), or 'calm' when that score is 0; the
    confidence is the rounded, clamped density of that score over the number
    of words. *)
Theorem analyzeMoodFromText_top_mood (text : string) :
  exists (pre post : list (string * Z)) (top : string * Z),
    scoreTable text = (pre ++ top :: post)%list
    /\ (forall e, In e pre -> snd e <= snd top)
    /\ (forall e, In e post -> snd e < snd top)
    /\ analyzeMoodFromText text
       = Returned {| mood := if snd top >? 0 then fst top else "calm";
                     confidence := clampedConfidence (snd top) (splitLength text) |}.
Proof. apply analyzeMoodFromText_top_mood_aux. Qed.

Lemma clamp_at_30 (x : Q) :
  (x == 30)%Q -> Math_round (Math_min 95 (Math_max 30 x)) = 30.
Proof.
  intros Hx. unfold Math_round.
  assert (E : (Math_min 95 (Math_max 30 x) == 30)%Q).
  { unfold Math_min, Math_max.
    destruct (Qle_bool 30 x) eqn:E1.
    - destruct (Qle_bool 95 x) eqn:E2; [| exact Hx].
      apply Qle_bool_iff in E2. rewrite Hx in E2. exfalso. apply E2. reflexivity.
    - reflexivity. }
  rewrite E. reflexivity.
Qed.

(** X19. When no keyword of any mood occurs in the lower-cased text, the
    analysis of the server is exactly mood 'calm' with confidence 30. *)
Theorem analyzeMoodFromText_no_keyword (text : string) :
  noKeywordOccurs text = true ->
  analyzeMoodFromText text = Returned {| mood := "calm"; confidence := 30 |}.
Proof.
  intros Hnone.
  destruct (analyzeMoodFromText_top_mood_aux text) as (pre & post & top & Hdec & _ & _ & ->).
  assert (Htop : snd top = 0).
  { assert (Hin : In top (scoreTable text)) by (rewrite Hdec; apply in_elt).
    unfold scoreTable in Hin. apply in_map_iff in Hin as (entry & <- & Hentry).
    unfold noKeywordOccurs in Hnone. rewrite forallb_forall in Hnone.
    cbn [snd]. unfold keywordScore. now apply score_none, Hnone. }
  rewrite Htop. cbn [Z.gtb Z.compare]. do 2 f_equal.
  unfold clampedConfidence. apply clamp_at_30. 
  unfold Qdiv. rewrite Qmult_0_l. reflexivity.
Qed.

Lemma countMatchesFrom_nonneg (keyword text : string) (skip : nat) :
  0 <= countMatchesFrom keyword text skip.
Proof.
  revert skip. induction text as [| c rest IH]; intros skip; cbn [countMatchesFrom]; [lia |].
  destruct skip as [| k]; [| apply IH].
  destruct (prefix keyword (String c rest)); [| apply IH].
  specialize (IH (String.length keyword - 1)%nat). lia.
Qed.

Lemma prefix_length (a b : string) :
  prefix a b = true -> (String.length a <= String.length b)%nat.
Proof.
  revert b. induction a as [| c a IH]; intros b H; cbn; [lia |].
  destruct b as [| d b]; cbn in H; [discriminate |].
  destruct (Ascii.ascii_dec c d); [| discriminate].
  specialize (IH b H). cbn. lia.
Qed.

(** With [skip] characters of the last match still to pass, the matches fit
    in what is left of the text. *)
Lemma countMatchesFrom_fit (keyword text : string) (skip : nat) :
  (0 < String.length keyword)%nat ->
  countMatchesFrom keyword text skip * Z.of_nat (String.length keyword)
  <= Z.max 0 (Z.of_nat (String.length text) - Z.of_nat skip).
Proof.
  intros Hk. revert skip.
  induction text as [| c rest IH]; intros skip; cbn [countMatchesFrom String.length]; [lia |].
  destruct skip as [| k].
  - destruct (prefix keyword (String c rest)) eqn:Hp.
    + apply prefix_length in Hp. cbn [String.length] in Hp.
      specialize (IH (String.length keyword - 1)%nat). lia.
    + specialize (IH 0%nat). lia.
  - specialize (IH k). lia.
Qed.

(** X20. For a keyword that is not empty, the number of matches is positive
    exactly when the text includes the keyword; it is never negative, and the
    matches, which do not overlap, fit in the text. *)
Theorem countMatches_includes (text keyword : string) :
  (0 < String.length keyword)%nat ->
  (includes text keyword = true <-> 0 < countMatches text keyword)
  /\ 0 <= countMatches text keyword
  /\ countMatches text keyword * Z.of_nat (String.length keyword)
     <= Z.of_nat (String.length text).
Proof.
  intros Hk. unfold countMatches. repeat split.
  - induction text as [| c rest IH]; cbn [includes countMatchesFrom].
    + destruct keyword; [cbn in Hk; lia | cbn; discriminate].
    + intros H. destruct (prefix keyword (String c rest)).
      * pose proof (countMatchesFrom_nonneg keyword rest (String.length keyword - 1)). lia.
      * cbn [orb] in H. now apply IH.
  - intros H. destruct (includes text keyword) eqn:E; [reflexivity |].
    rewrite (countMatchesFrom_none _ _ E) in H. lia.
  - apply countMatchesFrom_nonneg.
  - pose proof (countMatchesFrom_fit keyword text 0 Hk). lia.
Qed.

(** X21. For a draw of [[0, 1)], the random title is never [undefined]: it
    is one of the twelve titles. *)
Theorem getRandomTitle_in_titles (r : Q) :
  (0 <= r)%Q -> (r < 1)%Q ->
  exists t, getRandomTitle r = Some t /\ In t titles.
Proof.
  intros H0 H1. unfold getRandomTitle, get.
  change (inject_Z (Z.of_nat (List.length titles))) with (inject_Z 12).
  assert (Hlo : 0 <= Qfloor (r * inject_Z 12)).
  { change 0 with (Qfloor 0). apply Qfloor_resp_le.
    rewrite <- (Qmult_0_l (inject_Z 12)). apply Qmult_le_compat_r; [exact H0 | discriminate]. }
  assert (Hhi : Qfloor (r * inject_Z 12) < 12).
  { rewrite Zlt_Qlt. apply Qle_lt_trans with (r * inject_Z 12)%Q; [apply Qfloor_le |].
    setoid_replace (inject_Z 12) with (1 * inject_Z 12)%Q at 2 by ring.
    apply Qmult_lt_compat_r; [reflexivity | exact H1]. }
  destruct (Z.ltb_spec (Qfloor (r * inject_Z 12)) 0) as [H | _]; [lia |].
  destruct (nth_error titles (Z.to_nat (Qfloor (r * inject_Z 12)))) as [t |] eqn:E.
  - exists t. split; [reflexivity | eapply nth_error_In, E].
  - apply nth_error_None in E. change (List.length titles) with 12%nat in E. lia.
Qed.

Lemma generateMusicParameters_own (mood : string) :
  In mood MOODS ->
  exists p, generateMusicParameters mood = Some (Own p) /\ In (mood, p) moodParams.
Proof.
  intros Hin. cbn in Hin.
  repeat (destruct Hin as [<- | Hin]; [eexists; split; [reflexivity | cbn; tauto] |]).
  contradiction.
Qed.

Ltac exists_response p Hp Hpin :=
  eexists; eexists; exists p; split; [reflexivity |];
  cbn [Server.res_mood res_musicParams trackMood fst snd]; rewrite Hp; auto.

(** X22. The generate-music route answers 400 'Invalid mood', stores nothing
    and draws nothing when the body is rejected by the schema.  When the body
    is accepted, its mood is one of the ten moods, one track is appended, two
    draws are consumed, and the music parameters of the answer are the entry
    of that mood in the table: neither the fallback to 'calm' nor an inherited
    member can be returned through the route. *)
Theorem postGenerateMusic_validated (body : Json) (o : draws) (n : nat) (st : Storage) :
  (moodSelectSchema body = ZodError ->
   postGenerateMusic body o n st = (Status400 "Invalid mood", st, n))
  /\ (forall mood, moodSelectSchema body = Valid mood ->
      field body "mood" = Some (VString mood)
      /\ In mood MOODS
      /\ exists res track p,
          postGenerateMusic body o n st
            = (Json200 res, {| musicTracks := (musicTracks st ++ [track])%list |}, S (S n))
          /\ Server.res_mood res = mood
          /\ res_musicParams res = Some (Own p)
          /\ In (mood, p) moodParams).
Proof.
  split.
  - intros H. unfold postGenerateMusic. now rewrite H.
  - intros mood H.
    assert (Hm : field body "mood" = Some (VString mood) /\ In mood MOODS).
    { unfold moodSelectSchema in H. destruct body as [fields |]; [| discriminate].
      destruct (field (JObject fields) "mood") as [[| | | s |] |]; try discriminate.
      destruct (existsb (String.eqb s) MOODS) eqn:E; [| discriminate].
      injection H as ->. split; [reflexivity |].
      apply existsb_exists in E as (m & Hin & Heq).
      apply String.eqb_eq in Heq. now subst. }
    destruct Hm as [Hfield Hin]. repeat split; auto.
    destruct (generateMusicParameters_own mood Hin) as (p & Hp & Hpin).
    unfold postGenerateMusic. rewrite H. unfold generateMusic, createMusicTrack.
    exists_response p Hp Hpin.
Qed.

Lemma postGenerateMusic_validated_witness :
  exists res track p,
    postGenerateMusic (JObject [("mood", VString "sad")]) (fun _ => 0%Q) 0
                      {| musicTracks := [] |}
    = (Json200 res, {| musicTracks := ([] ++ [track])%list |}, 2%nat)
    /\ Server.res_mood res = "sad"
    /\ res_musicParams res = Some (Own p)
    /\ In ("sad", p) moodParams.
Proof.
  exact (proj2 (proj2 (proj2 (postGenerateMusic_validated
                  (JObject [("mood", VString "sad")]) (fun _ => 0%Q) 0
                  {| musicTracks := [] |}) "sad" eq_refl))).
Defined.

(** X23. The analyze-mood route answers 400 'Invalid input' and stores
    nothing when the body is rejected by the schema.  When the body is
    accepted, the text has between 3 and 500 characters, the answer is a 200
    (never a 500) with one of the ten moods and a confidence between 30 and
    95, and the analysis stored under the returned identifier holds the text,
    that mood and that confidence. *)
Theorem postAnalyzeMood_validated (body : Json) (uuid : string) (now : Z)
        (st : MemStorage.State) :
  (textAnalysisSchema body = ZodError ->
   postAnalyzeMood body uuid now st = (Status400 "Invalid input", st))
  /\ (forall text, textAnalysisSchema body = Valid text ->
      (3 <= String.length text <= 500)%nat
      /\ exists res analysis,
          postAnalyzeMood body uuid now st
            = (Json200 res, snd (MemStorage.createMoodAnalysis st uuid now
                                   {| MemStorage.insert_inputText := text;
                                      MemStorage.insert_detectedMood := res_mood res;
                                      MemStorage.insert_confidence := res_confidence res |}))
          /\ In (res_mood res) MOODS
          /\ 30 <= res_confidence res <= 95
          /\ res_analysisId res = uuid
          /\ mapGet (MemStorage.moodAnalyses (snd (postAnalyzeMood body uuid now st))) uuid
             = Some analysis
          /\ MemStorage.inputText analysis = text
          /\ MemStorage.detectedMood analysis = res_mood res
          /\ MemStorage.confidence analysis = res_confidence res).
Proof.
  split.
  - intros H. unfold postAnalyzeMood. now rewrite H.
  - intros text H.
    assert (Hlen : (3 <= String.length text <= 500)%nat).
    { unfold textAnalysisSchema in H. destruct body as [fields |]; [| discriminate].
      destruct (field (JObject fields) "text") as [[| | | s |] |]; try discriminate.
      destruct (_ && _) eqn:E; [| discriminate]. injection H as ->.
      apply andb_prop in E as [E1 E2].
      apply Nat.leb_le in E1. apply Nat.leb_le in E2. lia. }
    split; [exact Hlen |].
    unfold postAnalyzeMood. rewrite H.
    destruct (analyzeMoodFromText_top_mood_aux text)
      as (pre & post & top & Hdec & _ & _ & ->).
    cbn [mood confidence]. unfold MemStorage.createMoodAnalysis. cbn [fst snd].
    set (m := if snd top >? 0 then fst top else "calm").
    set (c := clampedConfidence (snd top) (splitLength text)).
    exists {| res_mood := m; res_confidence := c; res_analysisId := uuid |}.
    eexists. split; [reflexivity |].
    cbn [res_mood res_confidence res_analysisId MemStorage.moodAnalyses snd].
    repeat split; try apply mapGet_mapSet_same; subst m c.
    1: { destruct (snd top >? 0); [| cbn; tauto].
         assert (Hin : In top (scoreTable text)) by (rewrite Hdec; apply in_elt).
         apply (in_map fst) in Hin. exact Hin. }
    all: try (apply Math_round_range, Math_min_max_range).
    all: reflexivity.
Qed.

Lemma analyzeMoodFromText_no_keyword_witness :
  analyzeMoodFromText "What a day" = Returned {| mood := "calm"; confidence := 30 |}.
Proof.
  apply (analyzeMoodFromText_no_keyword "What a day"). reflexivity.
Defined.

Lemma countMatches_includes_witness :
  includes "so sad, sadly" "sad" = true <-> 0 < countMatches "so sad, sadly" "sad".
Proof.
  refine (proj1 (countMatches_includes "so sad, sadly" "sad" _)). simpl. lia.
Defined.

Lemma getRandomTitle_in_titles_witness :
  exists t, getRandomTitle (3 # 4) = Some t /\ In t titles.
Proof.
  apply (getRandomTitle_in_titles (3 # 4)); [discriminate | reflexivity].
Defined.

Lemma postAnalyzeMood_validated_witness :
  postAnalyzeMood (JObject [("text", VString "ok")]) "id-1" 1000 MemStorage.empty
  = (Status400 "Invalid input", MemStorage.empty).
Proof.
  exact (proj1 (postAnalyzeMood_validated (JObject [("text", VString "ok")]) "id-1" 1000
                  MemStorage.empty) eq_refl).
Defined.

End ServerExtras.

(** ** From the server's parameters to the client's render *)

Lemma generateAudioFromMood_returns (p : MusicParams) (sr : nat) (o : oracle) :
  In (rhythm p) rhythmIdentifiers ->
  scale p = "major" \/ scale p = "minor" ->
  exists buffer, generateAudioFromMood p sr o = Returned buffer.
Proof.
  intros Hrhythm Hscale. unfold generateAudioFromMood.
  assert (Hs : exists notes, scaleNotes (key p) (scale p) = Some notes).
  { unfold scaleNotes. destruct Hscale as [-> | ->]; eexists; reflexivity. }
  destruct Hs as [notes ->].
  destruct (getMoodVibe_own _ (tempo p) (scale p) Hrhythm) as (v & -> & _).
  destruct (renderLoop _ _ _ _ _ o 0%nat) as [channels k].
  eexists. reflexivity.
Qed.

(** X24. For each of the ten moods, the server's parameter table has an entry
    whose rhythm is one of the ten rhythm identifiers, whose key starts with a
    note name, whose scale is 'major' or 'minor' and whose tempo lies between
    30 and 200; the client's render of these parameters returns a buffer, at
    any sample rate and for any draws. *)
Theorem server_parameters_render (mood : string) :
  In mood Server.MOODS ->
  exists p : Server.Params,
    Server.generateMusicParameters mood = Some (Own p)
    /\ In (Server.rhythm p) rhythmIdentifiers
    /\ In (charAt0 (Server.key p)) noteMap
    /\ (Server.scale p = "major" \/ Server.scale p = "minor")
    /\ (30 <= Server.tempo p <= 200)
    /\ forall (sr : nat) (o : oracle),
        exists buffer, generateAudioFromMood (Routes.clientParams p) sr o = Returned buffer.
Proof.
  intros Hin. cbn in Hin.
  repeat (destruct Hin as [<- | Hin];
          [eexists; split; [reflexivity |];
           cbn [Server.rhythm Server.key Server.scale Server.tempo];
           repeat split;
           [ cbn; tauto | cbn; tauto | auto | lia | lia
           | intros sr o; apply generateAudioFromMood_returns; cbn; tauto ] |]).
  contradiction.
Qed.

Lemma server_parameters_render_witness :
  exists p : Server.Params,
    Server.generateMusicParameters "melancholy" = Some (Own p)
    /\ In (Server.rhythm p) rhythmIdentifiers
    /\ In (charAt0 (Server.key p)) noteMap
    /\ (Server.scale p = "major" \/ Server.scale p = "minor")
    /\ (30 <= Server.tempo p <= 200)
    /\ forall (sr : nat) (o : oracle),
        exists buffer, generateAudioFromMood (Routes.clientParams p) sr o = Returned buffer.
Proof.
  apply (server_parameters_render "melancholy"). simpl. tauto.
Defined.

(** ** The mood analysis of the client *)

Section SortHead.
Context {A : Type}.
Variable rank : A -> Z.
Let byRank (a b : A) : Z := rank b - rank a.

(** The head of the sorted array is the first of the greatest elements. *)
Lemma sortBy_head (l : list A) (top : A) (rest : list A) :
  sortBy byRank l = top :: rest ->
  exists pre post,
    l = (pre ++ top :: post)%list
    /\ (forall e, In e pre -> rank e < rank top)
    /\ (forall e, In e post -> rank e <= rank top).
Proof.
  revert top rest. induction l as [| x l IH]; intros top rest Hs; cbn [sortBy] in Hs.
  - discriminate.
  - destruct (sortBy byRank l) as [| t r] eqn:El.
    + assert (l = []) as ->.
      { apply Permutation_nil. rewrite <- El. apply sortBy_perm. }
      cbn in Hs. injection Hs as <- <-. exists [], []. repeat split; intros e [].
    + destruct (IH t r eq_refl) as (pre & post & -> & Hpre & Hpost).
      cbn [insertBy] in Hs.
      destruct (Z.leb_spec (byRank x t) 0) as [Hle | Hgt]; unfold byRank in *;
        injection Hs as <- <-.
      * exists [], (pre ++ t :: post)%list. repeat split; [intros e [] |].
        intros e He. apply in_app_or in He as [He | [<- | He]].
        -- specialize (Hpre e He). lia.
        -- lia.
        -- specialize (Hpost e He). lia.
      * exists (x :: pre), post. repeat split; auto.
        intros e [<- | He]; [lia | auto].
Qed.

Lemma filter_sorted_head (l : list A) (top : A) (rest : list A) :
  StronglySorted (fun a b => rank b <= rank a) l ->
  filter (fun e => 0 <? rank e) l = top :: rest ->
  exists rest', l = top :: rest' /\ 0 < rank top.
Proof.
  intros Hs Hf. destruct l as [| x l]; [discriminate |].
  cbn [filter] in Hf. destruct (Z.ltb_spec 0 (rank x)) as [Hpos | Hneg].
  - injection Hf as <- _. now exists l.
  - exfalso. inversion Hs as [| ? ? _ Hall]; subst.
    assert (Hin : In top (filter (fun e => 0 <? rank e) l)) by (rewrite Hf; now left).
    apply filter_In in Hin as [Hin Hpos].
    rewrite Forall_forall in Hall. specialize (Hall top Hin).
    apply Z.ltb_lt in Hpos. lia.
Qed.

Lemma filter_sorted_nil (l : list A) :
  filter (fun e => 0 <? rank e) l = [] -> forall e, In e l -> rank e <= 0.
Proof.
  intros Hf e Hin. destruct (Z.ltb_spec 0 (rank e)) as [Hpos | Hneg]; [| exact Hneg].
  assert (H : In e (filter (fun e => 0 <? rank e) l)).
  { apply filter_In. split; [exact Hin | now apply Z.ltb_lt]. }
  rewrite Hf in H. contradiction.
Qed.

End SortHead.

Module ClientMoodProperties.
Import Server.
Import ClientMood.

Lemma countWordMatchesFrom_none (keyword text : string) :
  includes text keyword = false ->
  forall prev skip, countWordMatchesFrom keyword text prev skip = 0.
Proof.
  induction text as [| c rest IH]; intros Hinc prev skip; [reflexivity |].
  cbn [includes] in Hinc. apply orb_false_elim in Hinc as [Hpre Hrest].
  cbn [countWordMatchesFrom]. destruct skip as [| k]; [| now apply IH].
  unfold matchesAt. rewrite Hpre. cbn [andb]. now apply IH.
Qed.

Lemma countWordMatches_includes (text keyword : string) :
  0 < countWordMatches text keyword -> includes text keyword = true.
Proof.
  intros H. destruct (includes text keyword) eqn:E; [reflexivity |].
  unfold countWordMatches in H. rewrite (countWordMatchesFrom_none _ _ E) in H. lia.
Qed.

Lemma countWordMatchesFrom_nonneg (keyword text : string) prev (skip : nat) :
  0 <= countWordMatchesFrom keyword text prev skip.
Proof.
  revert prev skip.
  induction text as [| c rest IH]; intros prev skip; cbn [countWordMatchesFrom]; [lia |].
  destruct skip as [| k]; [| apply IH].
  destruct (matchesAt keyword prev (String c rest)); [| apply IH].
  specialize (IH (Some c) (String.length keyword - 1)%nat). lia.
Qed.

Lemma addKeyword_invariant lowerText (keywords done : list string) (s : Score) :
  incl done keywords ->
  scoreInvariant lowerText keywords s ->
  scoreInvariant lowerText keywords (fold_left (addKeyword lowerText) done s).
Proof.
  revert s. induction done as [| k done IH]; intros s Hincl Hinv; [exact Hinv |].
  cbn [fold_left]. apply IH; [intros x Hx; apply Hincl; now right |].
  destruct Hinv as (Hs & Hzero & Hall). unfold addKeyword.
  destruct (Z.ltb_spec 0 (countWordMatches lowerText k)) as [Hpos | Hneg].
  - split; [| split]; cbn [score matchedKeywords].
    + lia.
    + intros. lia.
    + intros k' Hk'. destruct (existsb (String.eqb k) (matchedKeywords s)).
      * auto.
      * apply in_app_or in Hk' as [Hk' | [<- | []]]; [auto |].
        split; [apply Hincl; now left | exact Hpos].
  - split; [| split]; auto.
Qed.

Lemma scoresOf_invariant (lowerText : string) (entry : string * Score) :
  In entry (scoresOf lowerText) ->
  exists keywords, In (fst entry, keywords) moodKeywords
                   /\ scoreInvariant lowerText keywords (snd entry).
Proof.
  unfold scoresOf. intros Hin. apply in_map_iff in Hin as ([mood keywords] & <- & Hin).
  exists keywords. split; [exact Hin |]. cbn [fst snd].
  apply addKeyword_invariant; [apply incl_refl |].
  split; [| split]; cbn; auto; try lia.
Qed.

Lemma moodKeywords_keys : map fst moodKeywords = MOODS.
Proof. reflexivity. Qed.

Lemma sentimentFallback_cases (lowerText : string) :
  let r := sentimentFallback lowerText in
  result_keywords r = []
  /\ ((result_mood r = "happy" /\ result_confidence r = 40)
      \/ (result_mood r = "sad" /\ result_confidence r = 40)
      \/ (result_mood r = "calm" /\ result_confidence r = 30)).
Proof.
  unfold sentimentFallback.
  destruct (_ >? _); [cbn; auto |]. destruct (_ >? _); cbn; auto.
Qed.

Lemma sortedMoods_In (lowerText : string) (entry : string * Score) :
  In entry (sortedMoods lowerText) -> In entry (scoresOf lowerText).
Proof.
  unfold sortedMoods. intros Hin. apply filter_In in Hin as [Hin _].
  eapply Permutation_in; [apply sortBy_perm | exact Hin].
Qed.

(** X25. For every text, the mood analysis of the client returns one of the
    ten moods and a confidence between 30 and 95, and every keyword it
    reports is a keyword of the returned mood that occurs in the lower-cased
    text. *)
Theorem analyzeMoodFromText_result (text : string) :
  let r := analyzeMoodFromText text in
  In (result_mood r) MOODS
  /\ 30 <= result_confidence r <= 95
  /\ forall k, In k (result_keywords r) ->
       includes (toLowerCase text) k = true
       /\ exists keywords, In (result_mood r, keywords) moodKeywords /\ In k keywords.
Proof.
  unfold analyzeMoodFromText.
  destruct (sortedMoods (toLowerCase text)) as [| top others] eqn:Es.
  - destruct (sentimentFallback_cases (toLowerCase text)) as (Hk & Hcases).
    cbv zeta in *. rewrite Hk.
    destruct Hcases as [[Hm Hc] | [[Hm Hc] | [Hm Hc]]]; rewrite Hm, Hc;
      (split; [cbn; tauto | split; [lia | intros k []]]).
  - cbv zeta. cbn [result_mood result_confidence result_keywords].
    assert (Hin : In top (scoresOf (toLowerCase text))).
    { apply sortedMoods_In. rewrite Es. now left. }
    destruct (scoresOf_invariant _ _ Hin) as (keywords & Hkw & _ & _ & Hall).
    repeat split.
    + rewrite <- moodKeywords_keys. apply (in_map fst) in Hkw. exact Hkw.
    + apply ServerProperties.Math_round_range, ServerProperties.Math_min_max_range.
    + apply ServerProperties.Math_round_range, ServerProperties.Math_min_max_range.
    + apply countWordMatches_includes. now apply Hall.
    + exists keywords. split; [exact Hkw | now apply Hall].
Qed.

(** X26. When some mood has a positive score, the client returns the first of
    the moods with the greatest score (every earlier mood scores strictly
    less, every later mood at most as much), whose score is positive, together
    with its matched keywords. *)
Theorem analyzeMoodFromText_first_greatest (text : string) (top : string * Score)
        (others : list (string * Score)) :
  sortedMoods (toLowerCase text) = top :: others ->
  exists pre post,
    scoresOf (toLowerCase text) = (pre ++ top :: post)%list
    /\ (forall e, In e pre -> score (snd e) < score (snd top))
    /\ (forall e, In e post -> score (snd e) <= score (snd top))
    /\ 0 < score (snd top)
    /\ result_mood (analyzeMoodFromText text) = fst top
    /\ result_keywords (analyzeMoodFromText text) = matchedKeywords (snd top).
Proof.
  intros Es. unfold analyzeMoodFromText. rewrite Es.
  cbn [result_mood result_keywords].
  unfold sortedMoods in Es.
  destruct (filter_sorted_head (fun e => score (snd e)) _ _ _
              (sortBy_sorted (fun e => score (snd e)) _) Es) as (rest' & Hsort & Hpos).
  destruct (sortBy_head (fun e => score (snd e)) _ _ _ Hsort)
    as (pre & post & Hdec & Hpre & Hpost).
  exists pre, post. repeat split; auto.
Qed.

Lemma addKeyword_none lowerText (keywords : list string) (s : Score) :
  forallb (fun keyword => negb (includes lowerText keyword)) keywords = true ->
  fold_left (addKeyword lowerText) keywords s = s.
Proof.
  revert s. induction keywords as [| k rest IH]; intros s H; [reflexivity |].
  cbn [forallb] in H. apply andb_prop in H as [Hk Hrest].
  cbn [fold_left]. unfold addKeyword at 2. unfold countWordMatches.
  rewrite countWordMatchesFrom_none by now apply negb_true_iff.
  cbn. now apply IH.
Qed.

(** X27. When no keyword of any mood occurs in the lower-cased text, the
    client falls back on the count of sentiment words: the result has no
    keywords and is 'happy' or 'sad' with confidence 40, or 'calm' with
    confidence 30. *)
Theorem analyzeMoodFromText_fallback (text : string) :
  noWordOccurs text = true ->
  analyzeMoodFromText text = sentimentFallback (toLowerCase text)
  /\ result_keywords (analyzeMoodFromText text) = []
  /\ ((result_mood (analyzeMoodFromText text) = "happy"
       /\ result_confidence (analyzeMoodFromText text) = 40)
      \/ (result_mood (analyzeMoodFromText text) = "sad"
          /\ result_confidence (analyzeMoodFromText text) = 40)
      \/ (result_mood (analyzeMoodFromText text) = "calm"
          /\ result_confidence (analyzeMoodFromText text) = 30)).
Proof.
  intros Hnone.
  assert (E : analyzeMoodFromText text = sentimentFallback (toLowerCase text)).
  { unfold analyzeMoodFromText.
    destruct (sortedMoods (toLowerCase text)) as [| top others] eqn:Es; [reflexivity |].
    exfalso.
    assert (Hin : In top (sortedMoods (toLowerCase text))) by (rewrite Es; now left).
    unfold sortedMoods in Hin. apply filter_In in Hin as [Hin Hpos].
    eapply Permutation_in in Hin; [| apply sortBy_perm].
    unfold scoresOf in Hin. apply in_map_iff in Hin as (entry & <- & Hentry).
    unfold noWordOccurs in Hnone. rewrite forallb_forall in Hnone.
    cbn [snd] in Hpos. rewrite addKeyword_none in Hpos by now apply Hnone.
    discriminate. }
  rewrite E. split; [reflexivity |]. apply sentimentFallback_cases.
Qed.

Lemma analyzeMoodFromText_result_witness :
  includes (toLowerCase "So HAPPY today") "happy" = true.
Proof.
  refine (proj1 (proj2 (proj2 (analyzeMoodFromText_result "So HAPPY today")) "happy" _)).
  vm_compute. left. reflexivity.
Defined.

Lemma analyzeMoodFromText_first_greatest_witness :
  result_mood (analyzeMoodFromText "love calm") = "calm".
Proof.
  assert (E : exists top others,
             sortedMoods (toLowerCase "love calm") = top :: others /\ fst top = "calm").
  { do 2 eexists. split; [vm_compute; reflexivity | reflexivity]. }
  destruct E as (top & others & E & Htop).
  destruct (analyzeMoodFromText_first_greatest "love calm" top others E)
    as (pre & post & _ & _ & _ & _ & Hmood & _).
  rewrite Hmood. exact Htop.
Defined.

Lemma analyzeMoodFromText_fallback_witness :
  analyzeMoodFromText "nothing good" = sentimentFallback (toLowerCase "nothing good").
Proof.
  refine (proj1 (analyzeMoodFromText_fallback "nothing good" _)). reflexivity.
Defined.

End ClientMoodProperties.

(** ** The volume keypad *)

Module PlayerProperties.
Import Player.

Lemma digit_value (c : ascii) :
  isDigit c = true -> 0 <= Z.of_nat (nat_of_ascii c - 48) <= 9.
Proof.
  unfold isDigit. intros H. apply andb_prop in H as [H1 H2].
  apply Nat.leb_le in H1. apply Nat.leb_le in H2. lia.
Qed.

Lemma digitsOnly_app (a b : string) :
  digitsOnly a = true -> digitsOnly b = true -> digitsOnly (a ++ b) = true.
Proof.
  induction a as [| c a IH]; cbn; intros Ha Hb; [exact Hb |].
  apply andb_prop in Ha as [Hc Ha]. rewrite Hc. cbn. now apply IH.
Qed.

Lemma string_length_app (a b : string) :
  String.length (a ++ b) = (String.length a + String.length b)%nat.
Proof. induction a as [| c a IH]; cbn; [reflexivity | now rewrite IH]. Qed.

Lemma parseInt_two_digits (s : string) :
  digitsOnly s = true -> String.length s = 2%nat -> 0 <= parseInt s <= 99.
Proof.
  intros Hd Hl. destruct s as [| c1 [| c2 [| c3 s]]]; try discriminate.
  cbn in Hd. apply andb_prop in Hd as [H1 H2]. rewrite andb_true_r in H2.
  apply digit_value in H1. apply digit_value in H2.
  unfold parseInt. cbn [parseDigits]. lia.
Qed.

Lemma handleKeyPress_invariant (v0 : Z) (st : VolumeState) (key : string) :
  keypadInvariant v0 st -> keypadInvariant v0 (fst (handleKeyPress st key)).
Proof.
  intros (Hv & Hd & Hl & Hm). unfold handleKeyPress.
  destruct (isVolumeInputMode st) eqn:Emode; cbn [negb];
    [| repeat split; auto ].
  destruct (isDigitKey key) eqn:Ekey.
  - assert (Hk : digitsOnly key = true /\ String.length key = 1%nat).
    { destruct key as [| c [| c' k]]; try discriminate.
      cbn [isDigitKey] in Ekey. cbn [digitsOnly String.length]. now rewrite Ekey. }
    destruct Hk as [Hkd Hkl].
    pose proof (digitsOnly_app _ _ Hd Hkd) as Hnew.
    pose proof (string_length_app (volumeInput st) key) as Hlen.
    destruct (Nat.eqb_spec (String.length (volumeInput st ++ key)) 2) as [E2 | E2].
    + pose proof (parseInt_two_digits _ Hnew E2) as Hp.
      destruct ((1 <=? _) && (_ <=? 100)) eqn:Er; cbn [fst]; repeat split; cbn; auto.
      apply andb_prop in Er as [Er _]. apply Z.leb_le in Er. right. lia.
    + cbn [fst]. repeat split; cbn; auto; try lia.
  - destruct (String.eqb key "Escape"); cbn [fst]; repeat split; cbn; auto; congruence.
Qed.

Lemma step_invariant (v0 : Z) (st : VolumeState) (e : Event) :
  keypadInvariant v0 st -> keypadInvariant v0 (step st e).
Proof.
  intros H. destruct e as [key |]; cbn [step].
  - now apply handleKeyPress_invariant.
  - destruct H as (Hv & _). repeat split; cbn; auto.
Qed.

(** X28. Whatever keys are pressed and however often the volume button is
    clicked, starting from a new player, the volume is the initial 70 or a
    value between 1 and 99 (the keypad never sets 0 or 100), the pending
    input is at most one digit, and it is empty outside of the input mode. *)
Theorem volume_keypad_range (events : list Event) :
  let st := fold_left step events initial in
  (volume st = 70 \/ 1 <= volume st <= 99)
  /\ digitsOnly (volumeInput st) = true
  /\ (String.length (volumeInput st) <= 1)%nat
  /\ (isVolumeInputMode st = false -> volumeInput st = "").
Proof.
  cbv zeta. change (keypadInvariant 70 (fold_left step events initial)).
  assert (H : keypadInvariant 70 initial) by (repeat split; cbn; auto).
  revert H. generalize initial as st.
  induction events as [| e events IH]; intros st H; cbn [fold_left]; [exact H |].
  now apply IH, step_invariant.
Qed.

(** X29. After a click on the volume button, two digit keys make the number
    with these two digits: it is set as the volume when it is at least 1, and
    rejected, leaving the volume as it was, when it is 0 (the digits '00');
    either way the input mode is left and the pending input cleared. *)
Theorem volume_keypad_two_digits (st : VolumeState) (d1 d2 : ascii) :
  isDigit d1 = true -> isDigit d2 = true ->
  let v := 10 * Z.of_nat (nat_of_ascii d1 - 48) + Z.of_nat (nat_of_ascii d2 - 48) in
  let st1 := fst (handleVolumeButtonClick st) in
  let st2 := fst (handleKeyPress st1 (String d1 "")) in
  let result := handleKeyPress st2 (String d2 "") in
  0 <= v <= 99
  /\ isVolumeInputMode (fst result) = false
  /\ volumeInput (fst result) = ""
  /\ (1 <= v -> volume (fst result) = v /\ snd result = Some (VolumeSet v))
  /\ (v = 0 -> volume (fst result) = volume st /\ snd result = Some InvalidVolume).
Proof.
  intros H1 H2. cbv zeta.
  pose proof (digit_value _ H1) as Hv1. pose proof (digit_value _ H2) as Hv2.
  unfold handleVolumeButtonClick. cbn [fst].
  unfold handleKeyPress at 2 4 6 8 10 12. cbn [isVolumeInputMode negb isDigitKey volumeInput].
  rewrite H1. cbn [append String.length Nat.eqb fst volume].
  unfold handleKeyPress. cbn [isVolumeInputMode negb isDigitKey volumeInput].
  rewrite H2. cbn [append String.length Nat.eqb volume].
  unfold parseInt. cbn [parseDigits].
  replace (10 * (10 * 0 + Z.of_nat (nat_of_ascii d1 - 48)))
    with (10 * Z.of_nat (nat_of_ascii d1 - 48)) by lia.
  set (v := 10 * Z.of_nat (nat_of_ascii d1 - 48) + Z.of_nat (nat_of_ascii d2 - 48)).
  assert (Hv : 0 <= v <= 99) by (unfold v; lia).
  split; [exact Hv |].
  destruct (Z.leb_spec 1 v) as [Hpos | Hzero];
    destruct (Z.leb_spec v 100) as [_ | Hbig]; try lia; cbn [andb fst snd volume
      isVolumeInputMode volumeInput]; repeat split; try lia; auto.
Qed.

Lemma volume_keypad_range_witness :
  volumeInput (fold_left step [VolumeButton; KeyDown "4"; KeyDown "2"] initial) = "".
Proof.
  refine (proj2 (proj2 (proj2
            (volume_keypad_range [VolumeButton; KeyDown "4"; KeyDown "2"]))) _).
  reflexivity.
Defined.

Lemma volume_keypad_two_digits_witness :
  volume (fst (handleKeyPress
                 (fst (handleKeyPress (fst (handleVolumeButtonClick initial)) "4")) "2"))
  = 42.
Proof.
  refine (proj1 (proj1 (proj2 (proj2 (proj2
            (volume_keypad_two_digits initial "4" "2" eq_refl eq_refl)))) _)).
  vm_compute. discriminate.
Defined.

End PlayerProperties.
